(** * generar_tablas.py: a generator of synthetic person records

    The script draws 50 rows (name, age, city) from the [random] module,
    collects them after a header row in the list [data], and writes the list
    with [csv.writer] to the file [personas.csv].

    The development follows the script from top to bottom:
    - [Rand]: the calls the script makes to the [random] module, as a small
      free monad, and the random sources that answer them;
    - [Csv]: the row formatting of [csv.writer] in its default dialect;
    - [Os]: text files, the [with open(...)] block and the process outcome;
    - the script itself, and what is observed of a run;
    - the properties of the script. *)

From Stdlib Require Import ZArith List String Ascii Lia DecimalString.
From stdpp Require Import gmap strings.
Import ListNotations.

Local Open Scope string_scope.
Local Open Scope Z_scope.
Local Open Scope list_scope.

(** ** Python values and exceptions *)

(** The elements of a row: the script stores [str] and [int] objects in the
    same list. *)
Inductive value : Type :=
| VStr (s : string)
| VInt (z : Z).

Definition row : Type := list value.

(** The exceptions that the modelled library calls can raise. *)
Inductive exn : Type :=
| IndexError
| ValueError
| OSError (errno : Z).

(** ** The random module *)

Module Rand.

(** A computation that calls [random.choice] and [random.randint] and
    returns an [A]. *)
Inductive t (A : Type) : Type :=
| Ret (a : A)
| Choice (seq : list string) (k : string -> t A)
| Randint (a b : Z) (k : Z -> t A).

Arguments Ret {A} a.
Arguments Choice {A} seq k.
Arguments Randint {A} a b k.

Fixpoint bind {A B : Type} (m : t A) (f : A -> t B) : t B :=
  match m with
  | Ret a => f a
  | Choice seq k => Choice seq (fun s => bind (k s) f)
  | Randint a b k => Randint a b (fun z => bind (k z) f)
  end.

Definition choice (seq : list string) : t string := Choice seq Ret.
Definition randint (a b : Z) : t Z := Randint a b Ret.

(** A random source: a generator state [G] and the two operations of the
    [random] module that the script uses, each returning its result and the
    next state. *)
Record Source (G : Type) : Type := {
  src_choice : list string -> G -> string * G;
  src_randint : Z -> Z -> G -> Z * G
}.

Arguments src_choice {G} _ _ _.
Arguments src_randint {G} _ _ _ _.

(** The contract of the [random] module: [choice] returns an element of a
    non-empty sequence, [randint a b] an integer [a <= n <= b]. *)
Definition lawful {G : Type} (src : Source G) : Prop :=
  (forall seq g, seq <> [] -> In (fst (src_choice src seq g)) seq) /\
  (forall a b g, a <= b -> a <= fst (src_randint src a b g) <= b).

(** Running a computation against a source. [random.choice] raises
    [IndexError] on an empty sequence and [random.randint] raises
    [ValueError] on an empty range, before any value is drawn. *)
Fixpoint run {G A : Type} (src : Source G) (m : t A) (g : G) : exn + (A * G) :=
  match m with
  | Ret a => inr (a, g)
  | Choice seq k =>
      match seq with
      | [] => inl IndexError
      | _ :: _ => let (s, g') := src_choice src seq g in run src (k s) g'
      end
  | Randint a b k =>
      if Z.leb a b
      then let (z, g') := src_randint src a b g in run src (k z) g'
      else inl ValueError
  end.

(** One answered call, as an observer of the source sees it. *)
Inductive draw : Type :=
| DChoice (seq : list string) (res : string)
| DRandint (a b : Z) (res : Z).

(** The random value a draw delivered. *)
Definition answer (d : draw) : value :=
  match d with
  | DChoice _ res => VStr res
  | DRandint _ _ res => VInt res
  end.

(** The contract, read on one draw. *)
Definition draw_ok (d : draw) : Prop :=
  match d with
  | DChoice seq res => In res seq
  | DRandint a b res => a <= res <= b
  end.

(** The draws a computation makes from state [g], oldest first: the calls
    that [run] answers from the source, in the order it makes them. *)
Fixpoint draws {G A : Type} (src : Source G) (m : t A) (g : G) : list draw :=
  match m with
  | Ret _ => []
  | Choice seq k =>
      match seq with
      | [] => []
      | _ :: _ =>
          let (s, g') := src_choice src seq g in DChoice seq s :: draws src (k s) g'
      end
  | Randint a b k =>
      if Z.leb a b
      then let (z, g') := src_randint src a b g in DRandint a b z :: draws src (k z) g'
      else []
  end.

(** Running a computation on a given sequence of random values instead of
    a source; [None] when the values do not fit the calls. *)
Fixpoint replay {A : Type} (m : t A) (vs : list value) : option A :=
  match m with
  | Ret a => match vs with [] => Some a | _ :: _ => None end
  | Choice seq k =>
      match seq, vs with
      | _ :: _, VStr s :: vs' => replay (k s) vs'
      | _, _ => None
      end
  | Randint a b k =>
      match Z.leb a b, vs with
      | true, VInt z :: vs' => replay (k z) vs'
      | _, _ => None
      end
  end.

End Rand.

Notation "'let!' x ':=' m 'in' k" := (Rand.bind m (fun x => k))
  (at level 10, x name, m at level 100, k at level 200).

(** ** The csv module *)

Module Csv.

Definition CR : ascii := ascii_of_nat 13.
Definition LF : ascii := ascii_of_nat 10.

(** The default dialect of [csv.writer], [excel]: fields are separated by a
    comma, quoted with the double quote only when they need to be
    ([QUOTE_MINIMAL]), a quote inside a quoted field is doubled, and every
    row ends with a carriage return and a line feed. *)
Definition delimiter : ascii := ","%char.
Definition quotechar : ascii := ascii_of_nat 34.
Definition lineterminator : string := String CR (String LF EmptyString).

(** [str(n)] of an [int]. *)
Definition str_of_int (z : Z) : string := NilZero.string_of_int (Z.to_int z).

(** The text of a field before quoting: a [str] as it is, a number
    through [str]. *)
Definition field_text (v : value) : string :=
  match v with
  | VStr s => s
  | VInt z => str_of_int z
  end.

Fixpoint mem_char (c : ascii) (s : string) : bool :=
  match s with
  | EmptyString => false
  | String c' s' => Ascii.eqb c c' || mem_char c s'
  end.

(** The characters that force a field into quotes. *)
Definition special (c : ascii) : bool :=
  Ascii.eqb c delimiter || Ascii.eqb c quotechar || mem_char c lineterminator.

Fixpoint needs_quotes (s : string) : bool :=
  match s with
  | EmptyString => false
  | String c s' => special c || needs_quotes s'
  end.

(** The field's characters, each quote doubled. *)
Fixpoint escape (s : string) : string :=
  match s with
  | EmptyString => EmptyString
  | String c s' =>
      if Ascii.eqb c quotechar
      then String quotechar (String quotechar (escape s'))
      else String c (escape s')
  end.

Definition quoted (s : string) : string :=
  String quotechar (escape s +:+ String quotechar EmptyString).

Definition format_field (v : value) : string :=
  let s := field_text v in
  if needs_quotes s then quoted s else s.

(** The record that [writerow] hands to the file's [write]. A row of one
    empty field is written as a pair of quotes, so that it differs from an
    empty row. *)
Definition format_row (r : row) : string :=
  let body := String.concat (String delimiter EmptyString) (map format_field r) in
  match r, body with
  | [_], EmptyString => quoted EmptyString +:+ lineterminator
  | _, _ => body +:+ lineterminator
  end.

End Csv.

(** ** Text files and the process *)

Module Os.

Inductive platform : Type := Posix | Windows.

(** [os.linesep] *)
Definition linesep (p : platform) : string :=
  match p with
  | Posix => String Csv.LF EmptyString
  | Windows => String Csv.CR (String Csv.LF EmptyString)
  end.

(** The size at which a text file hands its pending text to the system
    before it is closed: the chunk size of a text file, 8192 characters. *)
Definition chunk_size : nat := N.to_nat 8192.

(** What the script cannot control: the platform it runs on, whether the
    operating system refuses to open a path for writing ([open_error], the
    [errno] it reports), and whether, handed a text to append to a file of a
    given content, it takes only the first [k] characters and then refuses
    ([write_error], the number [k] and the [errno]). *)
Record env : Type := {
  plat : platform;
  open_error : string -> option Z;
  write_error : string -> string -> string -> option (nat * Z)
}.

(** The calls the script makes on the file interface. *)
Inductive call : Type :=
| CallOpen (path : string)
| CallWrite (path : string) (text : string)
| CallClose (path : string).

(** The files, by their path from the working directory; the text that the
    open file holds in its buffer and that has not reached the system (the
    script has one file open at most); the calls made so far, oldest
    first. *)
Record world : Type := {
  files : gmap string string;
  buffered : string;
  trace : list call
}.

(** An open text file: its path and the [newline] argument of [open]. *)
Record file : Type := {
  f_path : string;
  f_newline : option string
}.

Definition io (A : Type) : Type := world -> (exn + A) * world.

Definition record (c : call) (w : world) : world :=
  {| files := files w; buffered := buffered w; trace := trace w ++ [c] |}.

(** [open(path, mode='w', newline=nl)]: the file is created, or emptied if
    it exists; its buffer is empty. *)
Definition open_w (e : env) (path : string) (newline : option string) : io file :=
  fun w =>
    let w' := record (CallOpen path) w in
    match open_error e path with
    | Some errno => (inl (OSError errno), w')
    | None =>
        (inr {| f_path := path; f_newline := newline |},
         {| files := <[path := EmptyString]> (files w');
            buffered := EmptyString;
            trace := trace w' |})
    end.

Fixpoint replace_lf (nl s : string) : string :=
  match s with
  | EmptyString => EmptyString
  | String c s' =>
      if Ascii.eqb c Csv.LF
      then nl +:+ replace_lf nl s'
      else String c (replace_lf nl s')
  end.

(** The newline translation of a text file on output: with [newline=None]
    every line feed becomes [os.linesep]; with the empty string or a line
    feed nothing is translated; with another value every line feed becomes
    that value. *)
Definition translate (p : platform) (newline : option string) (s : string) : string :=
  match newline with
  | None => replace_lf (linesep p) s
  | Some nl =>
      if String.eqb nl EmptyString || String.eqb nl (String Csv.LF EmptyString)
      then s
      else replace_lf nl s
  end.

Definition content (path : string) (w : world) : string :=
  default EmptyString (files w !! path).

(** The first [k] characters of a text, and the rest. *)
Fixpoint take_chars (k : nat) (s : string) : string :=
  match k, s with
  | S k', String c s' => String c (take_chars k' s')
  | _, _ => EmptyString
  end.

Fixpoint drop_chars (k : nat) (s : string) : string :=
  match k, s with
  | S k', String _ s' => drop_chars k' s'
  | _, _ => s
  end.

(** The buffer is handed to the system, which appends it to the file, or
    appends the part it takes and refuses the rest: the [OSError] is raised
    and what was refused stays in the buffer. Nothing is asked of the system
    for an empty buffer. *)
Definition flush (e : env) (f : file) : io unit :=
  fun w =>
    match buffered w with
    | EmptyString => (inr tt, w)
    | String _ _ as text =>
        let cur := content (f_path f) w in
        match write_error e (f_path f) cur text with
        | None =>
            (inr tt,
             {| files := <[f_path f := cur +:+ text]> (files w);
                buffered := EmptyString;
                trace := trace w |})
        | Some (k, errno) =>
            (inl (OSError errno),
             {| files := <[f_path f := cur +:+ take_chars k text]> (files w);
                buffered := drop_chars k text;
                trace := trace w |})
        end
    end.

(** [f.write(s)]: the translated text goes to the buffer of the file, not
    to the system; the buffer is flushed only when it has reached the chunk
    size. *)
Definition write (e : env) (f : file) (s : string) : io unit :=
  fun w =>
    let text := translate (plat e) (f_newline f) s in
    let w' := {| files := files w;
                 buffered := buffered w +:+ text;
                 trace := trace w ++ [CallWrite (f_path f) s] |} in
    if Nat.leb chunk_size (String.length (buffered w'))
    then flush e f w'
    else (inr tt, w').

(** [f.close()]: the buffer is flushed, which is where a refused write
    shows as an [OSError], and the file is closed whether the flush raised
    or not; an unwritten rest is lost. *)
Definition close (e : env) (f : file) : io unit :=
  fun w =>
    let (r, w') := flush e f w in
    (r, {| files := files w';
           buffered := EmptyString;
           trace := trace w' ++ [CallClose (f_path f)] |}).

(** [with open(path, mode='w', newline=nl) as f: body]: when [open] raises,
    the body does not run; otherwise the file is closed however the body
    ends. An exception of [close] goes up, also in place of one of the
    body; otherwise the body's result or exception does. *)
Definition with_open {A : Type} (e : env) (path : string) (newline : option string)
    (body : file -> io A) : io A :=
  fun w =>
    match open_w e path newline w with
    | (inl x, w1) => (inl x, w1)
    | (inr f, w1) =>
        let (r, w2) := body f w1 in
        let (c, w3) := close e f w2 in
        (match c with
         | inl x => inl x
         | inr _ => r
         end, w3)
    end.

(** [writer.writerow(r)] of a [csv.writer] over [f]. *)
Definition writerow (e : env) (f : file) (r : row) : io unit :=
  write e f (Csv.format_row r).

(** [writer.writerows(rows)]: row after row, up to the first exception. *)
Fixpoint writerows (e : env) (f : file) (rows : list row) : io unit :=
  fun w =>
    match rows with
    | [] => (inr tt, w)
    | r :: rows' =>
        match writerow e f r w with
        | (inl x, w') => (inl x, w')
        | (inr _, w') => writerows e f rows' w'
        end
    end.

(** How the run of a script ends: the exception nobody caught, if any, the
    files and calls, and the exit status of the interpreter. *)
Record outcome : Type := {
  raised : option exn;
  final : world
}.

(** The outcome of a script that ends with the result [r] of its last
    statement. *)
Definition outcome_of {A : Type} (r : (exn + A) * world) : outcome :=
  match r with
  | (inl x, w) => {| raised := Some x; final := w |}
  | (inr _, w) => {| raised := None; final := w |}
  end.

Definition exit_status (o : outcome) : Z :=
  match raised o with
  | None => 0
  | Some _ => 1
  end.

End Os.

(** ** The script: constants and the generation loop *)

Definition nombres : list string :=
  ["Juan"; "Ana"; "Luis"; "Maria"; "Pedro"; "Lucia"; "Carlos"; "Sofia"; "Diego"; "Elena"].

Definition ciudades : list string :=
  ["Madrid"; "Barcelona"; "Valencia"; "Sevilla"; "Bilbao"; "Zaragoza"; "Malaga";
   "Granada"; "Murcia"; "Alicante"].

(** [data = [["Nombre", "Edad", "Ciudad"]]] *)
Definition header : row := [VStr "Nombre"; VStr "Edad"; VStr "Ciudad"].

(** The body of the loop: three draws, then [data.append]. *)
Definition loop_body (data : list row) : Rand.t (list row) :=
  let! nombre := Rand.choice nombres in
  let! edad := Rand.randint 18 65 in
  let! ciudad := Rand.choice ciudades in
  Rand.Ret (data ++ [[VStr nombre; VInt edad; VStr ciudad]]).

(** [for _ in range(n): body] over the list being built. *)
Fixpoint for_range (n : nat) (body : list row -> Rand.t (list row))
    (data : list row) : Rand.t (list row) :=
  match n with
  | O => Rand.Ret data
  | S n' => let! data' := body data in for_range n' body data'
  end.

(** The list [data] when the loop has finished. *)
Definition data : Rand.t (list row) := for_range 50 loop_body [header].

(** [filename = "personas.csv"] *)
Definition filename : string := "personas.csv".

(** The [with] block of the script. *)
Definition write_csv (e : Os.env) (rows : list row) : Os.io unit :=
  Os.with_open e filename (Some EmptyString) (fun file => Os.writerows e file rows).

(** One run of the script: on a platform and file system [e], with the random
    source [src] in state [g], over the files [fs]. *)
Definition main {G : Type} (e : Os.env) (src : Rand.Source G) (g : G)
    (fs : gmap string string) : Os.outcome :=
  let w0 := {| Os.files := fs; Os.buffered := EmptyString; Os.trace := [] |} in
  match Rand.run src data g with
  | inl x => {| Os.raised := Some x; Os.final := w0 |}
  | inr (rows, _) => Os.outcome_of (write_csv e rows w0)
  end.

(** The content of the output file after a run, if the file exists. *)
Definition output {G : Type} (e : Os.env) (src : Rand.Source G) (g : G)
    (fs : gmap string string) : option string :=
  Os.files (Os.final (main e src g fs)) !! filename.

(** ** What is observed of a run *)

(** A data row as the loop builds it from lawful draws. *)
Definition valid_row (r : row) : Prop :=
  exists (n : string) (a : Z) (c : string),
    r = [VStr n; VInt a; VStr c] /\ In n nombres /\ 18 <= a <= 65 /\ In c ciudades.

(** The draws of the loop and the rows they give: three draws a row, the
    name, then the age, then the city. *)
Inductive drawn_rows : list Rand.draw -> list row -> Prop :=
| drawn_nil : drawn_rows [] []
| drawn_cons (n : string) (a : Z) (c : string) ds rows :
    drawn_rows ds rows ->
    drawn_rows
      (Rand.DChoice nombres n :: Rand.DRandint 18 65 a :: Rand.DChoice ciudades c :: ds)
      ([VStr n; VInt a; VStr c] :: rows).

(** The [i]-th draw of a sequence, counted from one. *)
Definition draw_no (i : nat) (ds : list Rand.draw) : option Rand.draw :=
  match i with
  | O => None
  | S i' => nth_error ds i'
  end.

(** The open file as the system and the library hold it: what has reached
    the file, and what waits in the buffer. *)
Record stored : Type := {
  on_disk : string;
  in_buffer : string
}.

(** [Os.flush], [Os.write] and [Os.writerows] read on the open file alone:
    the [errno] of the refusal, if any, and the file after it; for the rows,
    also how many writes were made. *)
Definition flushed (e : Os.env) (path : string) (st : stored) : option Z * stored :=
  match in_buffer st with
  | EmptyString => (None, st)
  | String _ _ as text =>
      match Os.write_error e path (on_disk st) text with
      | None => (None, {| on_disk := on_disk st +:+ text; in_buffer := EmptyString |})
      | Some (k, errno) =>
          (Some errno,
           {| on_disk := on_disk st +:+ Os.take_chars k text;
              in_buffer := Os.drop_chars k text |})
      end
  end.

Definition wrote (e : Os.env) (path text : string) (st : stored) : option Z * stored :=
  let st' := {| on_disk := on_disk st; in_buffer := in_buffer st +:+ text |} in
  if Nat.leb Os.chunk_size (String.length (in_buffer st'))
  then flushed e path st'
  else (None, st').

Fixpoint fed (e : Os.env) (path : string) (texts : list string) (st : stored)
    : option Z * nat * stored :=
  match texts with
  | [] => (None, O, st)
  | t :: texts' =>
      match wrote e path t st with
      | (Some errno, st') => (Some errno, 1%nat, st')
      | (None, st') =>
          match fed e path texts' st' with
          | (r, n, st'') => (r, S n, st'')
          end
      end
  end.

(** The [with] block read on the file alone, from the emptied file to the
    closed one: the [errno] that goes up, if any, how many writes were made,
    and the text the file is left with. *)
Definition written (e : Os.env) (path : string) (texts : list string)
    : option Z * nat * string :=
  match fed e path texts {| on_disk := EmptyString; in_buffer := EmptyString |} with
  | (r, n, st) =>
      match flushed e path st with
      | (Some errno, st') => (Some errno, n, on_disk st')
      | (None, st') => (r, n, on_disk st')
      end
  end.

(** An [errno] as the exception it is raised as. *)
Definition raise_errno (r : option Z) : exn + unit :=
  match r with
  | Some errno => inl (OSError errno)
  | None => inr tt
  end.

(** The text of a list of strings written one after the other. *)
Fixpoint concat_texts (texts : list string) : string :=
  match texts with
  | [] => EmptyString
  | t :: texts' => t +:+ concat_texts texts'
  end.

(** A row as plain text: its fields joined by commas, nothing quoted. *)
Definition comma_join (r : row) : string :=
  String.concat (String Csv.delimiter EmptyString) (map Csv.field_text r).

(** No carriage return and no line feed. *)
Fixpoint one_line (s : string) : bool :=
  match s with
  | EmptyString => true
  | String c s' => negb (Ascii.eqb c Csv.CR) && negb (Ascii.eqb c Csv.LF) && one_line s'
  end.

(** No comma, no double quote, no carriage return and no line feed. *)
Definition no_special_char (s : string) : Prop :=
  Csv.mem_char Csv.delimiter s = false /\ Csv.mem_char Csv.quotechar s = false /\
  Csv.mem_char Csv.CR s = false /\ Csv.mem_char Csv.LF s = false.

(** A row that is written as its plain comma-join, on one line. *)
Definition plain_row (r : row) : Prop :=
  Csv.format_row r = comma_join r +:+ Csv.lineterminator /\
  one_line (comma_join r) = true.

(** ** Reading the output back *)

(** The lines of a text as a reader with universal newlines sees them: a line
    ends at a line feed, at a carriage return, or at a carriage return
    followed by a line feed; a text that ends in a terminator has no empty
    last line. *)
Fixpoint splitlines (s : string) : list string :=
  match s with
  | EmptyString => []
  | String c s' =>
      if Ascii.eqb c Csv.LF then EmptyString :: splitlines s'
      else if Ascii.eqb c Csv.CR then
        match s' with
        | String c' s'' =>
            if Ascii.eqb c' Csv.LF then EmptyString :: splitlines s''
            else EmptyString :: splitlines s'
        | EmptyString => [EmptyString]
        end
      else
        match splitlines s' with
        | [] => [String c EmptyString]
        | l :: ls => String c l :: ls
        end
  end.

(** The fields of a line that holds no quoted field. *)
Fixpoint split_commas (s : string) : list string :=
  match s with
  | EmptyString => [EmptyString]
  | String c s' =>
      if Ascii.eqb c Csv.delimiter then EmptyString :: split_commas s'
      else
        match split_commas s' with
        | [] => [String c EmptyString]
        | f :: fs => String c f :: fs
        end
  end.

(** [int(s)] of a field, for the decimal numerals that [str] writes. *)
Definition int_of_str (s : string) : option Z :=
  option_map Z.of_int (NilZero.int_of_string s).

(** ** Environments and random sources to run the script on *)

(** A file system that refuses nothing. *)
Definition willing (p : Os.platform) : Os.env := {|
  Os.plat := p;
  Os.open_error := fun _ => None;
  Os.write_error := fun _ _ _ => None
|}.

(** The directory of the path is missing: [open] fails with [ENOENT]. *)
Definition no_directory (p : Os.platform) : Os.env := {|
  Os.plat := p;
  Os.open_error := fun _ => Some 2;
  Os.write_error := fun _ _ _ => None
|}.

(** A disk with room for [room] characters in a file: of a text that goes
    beyond it the system takes what fits and refuses the rest with
    [ENOSPC]. *)
Definition small_disk (p : Os.platform) (room : nat) : Os.env := {|
  Os.plat := p;
  Os.open_error := fun _ => None;
  Os.write_error := fun _ cur text =>
    if Nat.ltb room (String.length cur + String.length text)
    then Some ((room - String.length cur)%nat, 28)
    else None
|}.

(** Every selection returns the first element of its list, every integer
    draw the lower end of its range. *)
Definition lowest : Rand.Source unit := {|
  Rand.src_choice := fun seq g => (List.hd EmptyString seq, g);
  Rand.src_randint := fun a _ g => (a, g)
|}.

(** Every selection returns the last element, every integer draw the upper
    end. *)
Definition highest : Rand.Source unit := {|
  Rand.src_choice := fun seq g => (List.last seq EmptyString, g);
  Rand.src_randint := fun _ b g => (b, g)
|}.

(** A linear congruential generator: the state is the last number. *)
Definition lcg_next (g : Z) : Z := (1103515245 * g + 12345) mod 2147483648.

Definition lcg : Rand.Source Z := {|
  Rand.src_choice := fun seq g =>
    (List.nth (Z.to_nat (g mod Z.of_nat (List.length seq))) seq EmptyString, lcg_next g);
  Rand.src_randint := fun a b g => (a + g mod (b - a + 1), lcg_next g)
|}.

(** A source outside the contract of [random.choice]: every selection
    returns a two-line text that is in no list. *)
Definition two_lines : string :=
  String "a" (String Csv.LF (String "b" EmptyString)).

Definition unlawful : Rand.Source unit := {|
  Rand.src_choice := fun _ g => (two_lines, g);
  Rand.src_randint := fun a _ g => (a, g)
|}.

(** A source that hands out prepared values, as a test double does; when the
    next value does not fit the call, the first element or the lower end. *)
Definition scripted : Rand.Source (list value) := {|
  Rand.src_choice := fun seq vs =>
    match vs with
    | VStr s :: vs' => (s, vs')
    | _ => (List.hd EmptyString seq, vs)
    end;
  Rand.src_randint := fun a _ vs =>
    match vs with
    | VInt z :: vs' => (z, vs')
    | _ => (a, vs)
    end
|}.

(** A source fixed so that every selection returns the first element of its
    list and every integer draw the minimum of its range. *)
Definition first_and_min {G : Type} (src : Rand.Source G) : Prop :=
  (forall s seq g, fst (Rand.src_choice src (s :: seq) g) = s) /\
  (forall a b g, fst (Rand.src_randint src a b g) = a).

Definition draw_first_and_min (d : Rand.draw) : Prop :=
  match d with
  | Rand.DChoice seq res => hd_error seq = Some res
  | Rand.DRandint a _ res => res = a
  end.

(** The lines of the output file after a run; none when there is no file. *)
Definition output_lines {G : Type} (e : Os.env) (src : Rand.Source G) (g : G)
    (fs : gmap string string) : list string :=
  match output e src g fs with
  | Some text => splitlines text
  | None => []
  end.

(** The rows as plain comma-joined lines, each ended by [nl]. *)
Definition lines_text (nl : string) (rows : list row) : string :=
  concat_texts (map (fun r => comma_join r +:+ nl) rows).

(** Not the script: its loop with the city drawn before the name, to compare
    the draw orders. *)
Definition loop_body_city_first (data : list row) : Rand.t (list row) :=
  let! ciudad := Rand.choice ciudades in
  let! edad := Rand.randint 18 65 in
  let! nombre := Rand.choice nombres in
  Rand.Ret (data ++ [[VStr nombre; VInt edad; VStr ciudad]]).

(** ** Reading the dataset back, and measuring the output *)

(** A data line read back: three fields, the second an integer. *)
Definition parse_row (line : string) : option row :=
  match split_commas line with
  | [n; a; c] =>
      match int_of_str a with
      | Some z => Some [VStr n; VInt z; VStr c]
      | None => None
      end
  | _ => None
  end.

(** The data rows of a text: every line after the header line. *)
Definition read_rows (text : string) : list (option row) :=
  map parse_row (List.tl (splitlines text)).

(** Every character is in the ASCII range, below 128. *)
Fixpoint ascii_only (s : string) : bool :=
  match s with
  | EmptyString => true
  | String c s' => N.ltb (N_of_ascii c) 128 && ascii_only s'
  end.

(** The element of [s :: seq] that [better] prefers, the earliest of equals. *)
Fixpoint pick_by (better : string -> string -> bool) (best : string)
    (seq : list string) : string :=
  match seq with
  | [] => best
  | s :: seq' => pick_by better (if better s best then s else best) seq'
  end.

(** Every selection returns the shortest element, every integer draw the
    lower end. *)
Definition shortest : Rand.Source unit := {|
  Rand.src_choice := fun seq g =>
    match seq with
    | [] => (EmptyString, g)
    | s :: seq' =>
        (pick_by (fun a b => Nat.ltb (String.length a) (String.length b)) s seq', g)
    end;
  Rand.src_randint := fun a _ g => (a, g)
|}.

(** Every selection returns the longest element, every integer draw the
    upper end. *)
Definition longest : Rand.Source unit := {|
  Rand.src_choice := fun seq g =>
    match seq with
    | [] => (EmptyString, g)
    | s :: seq' =>
        (pick_by (fun a b => Nat.ltb (String.length b) (String.length a)) s seq', g)
    end;
  Rand.src_randint := fun _ b g => (b, g)
|}.

(** * Properties *)

(** ** Computations over a random source *)

Section RandFacts.
Context {G : Type} (src : Rand.Source G).

Lemma run_bind {A B : Type} (m : Rand.t A) (f : A -> Rand.t B) (g : G) :
  Rand.run src (Rand.bind m f) g =
  match Rand.run src m g with
  | inl x => inl x
  | inr (a, g') => Rand.run src (f a) g'
  end.
Proof.
  revert g; induction m as [a | seq k IH | a b k IH]; intros g; simpl.
  - reflexivity.
  - destruct seq as [| s0 seq']; [reflexivity |].
    destruct (Rand.src_choice src (s0 :: seq') g) as [s g']. apply IH.
  - destruct (a <=? b); [| reflexivity].
    destruct (Rand.src_randint src a b g) as [z g']. apply IH.
Qed.

Lemma draws_bind {A B : Type} (m : Rand.t A) (f : A -> Rand.t B) (g : G) :
  Rand.draws src (Rand.bind m f) g =
  Rand.draws src m g ++
  match Rand.run src m g with
  | inl _ => []
  | inr (a, g') => Rand.draws src (f a) g'
  end.
Proof.
  revert g; induction m as [a | seq k IH | a b k IH]; intros g; simpl.
  - reflexivity.
  - destruct seq as [| s0 seq']; [reflexivity |].
    destruct (Rand.src_choice src (s0 :: seq') g) as [s g'].
    simpl. f_equal. apply IH.
  - destruct (a <=? b); [| reflexivity].
    destruct (Rand.src_randint src a b g) as [z g'].
    simpl. f_equal. apply IH.
Qed.

(** What holds of every answer of the source holds of every draw. *)
Lemma draws_Forall (P : Rand.draw -> Prop) {A : Type} (m : Rand.t A) (g : G) :
  (forall seq g, seq <> [] -> P (Rand.DChoice seq (fst (Rand.src_choice src seq g)))) ->
  (forall a b g, a <= b -> P (Rand.DRandint a b (fst (Rand.src_randint src a b g)))) ->
  Forall P (Rand.draws src m g).
Proof.
  intros Hc Hr. revert g.
  induction m as [a | seq k IH | a b k IH]; intros g; simpl.
  - constructor.
  - destruct seq as [| s0 seq']; [constructor |].
    pose proof (Hc (s0 :: seq') g ltac:(discriminate)) as Hin.
    destruct (Rand.src_choice src (s0 :: seq') g) as [s g'].
    constructor; [exact Hin | apply IH].
  - destruct (Z.leb_spec a b) as [Hab | Hab]; [| constructor].
    pose proof (Hr a b g Hab) as Hin.
    destruct (Rand.src_randint src a b g) as [z g'].
    constructor; [exact Hin | apply IH].
Qed.

(** A lawful source only makes lawful draws. *)
Lemma draws_ok {A : Type} (m : Rand.t A) (g : G) :
  Rand.lawful src -> Forall Rand.draw_ok (Rand.draws src m g).
Proof.
  intros [Hc Hr]. apply draws_Forall.
  - intros seq g0 Hne. apply Hc, Hne.
  - intros a b g0 Hab. apply Hr, Hab.
Qed.

Lemma draws_first_and_min {A : Type} (m : Rand.t A) (g : G) :
  first_and_min src -> Forall draw_first_and_min (Rand.draws src m g).
Proof.
  intros [Hc Hr]. apply draws_Forall.
  - intros [| s seq] g0 Hne; [congruence |]. simpl. now rewrite Hc.
  - intros a b g0 _. simpl. apply Hr.
Qed.

(** The result of a run is the result of replaying the values it drew:
    the source matters only through them. *)
Lemma replay_run {A : Type} (m : Rand.t A) (g g' : G) (a : A) :
  Rand.run src m g = inr (a, g') ->
  Rand.replay m (map Rand.answer (Rand.draws src m g)) = Some a.
Proof.
  revert g; induction m as [a0 | seq k IH | lo hi k IH]; intros g; simpl.
  - intros H; injection H as -> _. reflexivity.
  - destruct seq as [| s0 seq']; [discriminate |].
    destruct (Rand.src_choice src (s0 :: seq') g) as [s g1].
    simpl. apply IH.
  - destruct (lo <=? hi); [| discriminate].
    destruct (Rand.src_randint src lo hi g) as [z g1].
    simpl. apply IH.
Qed.

(** *** The loop *)

Lemma loop_body_run (acc : list row) (g : G) :
  exists (n : string) (a : Z) (c : string) (g' : G),
    Rand.run src (loop_body acc) g = inr (acc ++ [[VStr n; VInt a; VStr c]], g') /\
    Rand.draws src (loop_body acc) g =
      [Rand.DChoice nombres n; Rand.DRandint 18 65 a; Rand.DChoice ciudades c].
Proof.
  unfold loop_body, Rand.choice, Rand.randint.
  cbn [Rand.bind Rand.run Rand.draws].
  destruct (Rand.src_choice src nombres g) as [n g1].
  destruct (Rand.src_randint src 18 65 g1) as [a g2].
  destruct (Rand.src_choice src ciudades g2) as [c g3].
  exists n, a, c, g3. split; reflexivity.
Qed.

Lemma for_range_run (n : nat) :
  forall (acc : list row) (g : G),
  exists (rows : list row) (g' : G),
    Rand.run src (for_range n loop_body acc) g = inr (acc ++ rows, g') /\
    drawn_rows (Rand.draws src (for_range n loop_body acc) g) rows /\
    List.length rows = n.
Proof.
  induction n as [| n IH]; intros acc g.
  - exists [], g. simpl. rewrite app_nil_r. repeat split. constructor.
  - destruct (loop_body_run acc g) as (nm & a & c & g1 & Hrun & Hdraws).
    destruct (IH (acc ++ [[VStr nm; VInt a; VStr c]]) g1) as (rows & g' & Hr & Hd & Hl).
    exists ([VStr nm; VInt a; VStr c] :: rows), g'.
    cbn [for_range]. rewrite run_bind, draws_bind, Hrun, Hdraws, Hr.
    rewrite <- app_assoc. repeat split.
    + simpl. constructor. exact Hd.
    + simpl. f_equal. exact Hl.
Qed.

(** The loop of the script never raises: it returns the header and 50
    rows, drawn three draws a row. *)
Lemma data_run (g : G) :
  exists (rows : list row) (g' : G),
    Rand.run src data g = inr (header :: rows, g') /\
    drawn_rows (Rand.draws src data g) rows /\
    List.length rows = 50%nat.
Proof. apply (for_range_run 50 [header] g). Qed.

End RandFacts.

(** ** Draws and rows *)

Lemma drawn_rows_length ds rows :
  drawn_rows ds rows -> List.length ds = (3 * List.length rows)%nat.
Proof. induction 1; simpl in *; lia. Qed.

(** Row [k] (from zero) is made of draws [3k], [3k+1] and [3k+2]. *)
Lemma drawn_rows_nth ds rows :
  drawn_rows ds rows ->
  forall (k : nat) (r : row),
    nth_error rows k = Some r ->
    exists (n : string) (a : Z) (c : string),
      r = [VStr n; VInt a; VStr c] /\
      nth_error ds (3 * k) = Some (Rand.DChoice nombres n) /\
      nth_error ds (3 * k + 1) = Some (Rand.DRandint 18 65 a) /\
      nth_error ds (3 * k + 2) = Some (Rand.DChoice ciudades c).
Proof.
  induction 1 as [| n a c ds rows Hd IH]; intros k r Hk.
  - destruct k; discriminate.
  - destruct k as [| k].
    + injection Hk as <-. exists n, a, c. repeat split.
    + simpl in Hk. destruct (IH k r Hk) as (n' & a' & c' & -> & H1 & H2 & H3).
      exists n', a', c'.
      replace (3 * S k)%nat with (S (S (S (3 * k)))) by lia.
      repeat split; assumption.
Qed.

Lemma drawn_rows_valid ds rows :
  drawn_rows ds rows -> Forall Rand.draw_ok ds -> Forall valid_row rows.
Proof.
  induction 1 as [| n a c ds rows Hd IH]; intros Hok; constructor.
  - inversion Hok as [| ? ? Hn Hok1]; subst.
    inversion Hok1 as [| ? ? Ha Hok2]; subst.
    inversion Hok2 as [| ? ? Hc Hok3]; subst.
    exists n, a, c. simpl in Hn, Ha, Hc. auto.
  - apply IH. do 3 (apply Forall_inv_tail in Hok). exact Hok.
Qed.

(** ** Texts, lines and fields *)

Section TextFacts.

Lemma append_nil_l (s : string) : EmptyString +:+ s = s.
Proof. reflexivity. Qed.

Lemma append_cons (c : ascii) (s1 s2 : string) :
  String c s1 +:+ s2 = String c (s1 +:+ s2).
Proof. reflexivity. Qed.

Lemma append_assoc (s1 s2 s3 : string) : (s1 +:+ s2) +:+ s3 = s1 +:+ (s2 +:+ s3).
Proof.
  induction s1 as [| c s1 IH]; [reflexivity |].
  rewrite !append_cons. now rewrite IH.
Qed.

Lemma append_nil_r (s : string) : s +:+ EmptyString = s.
Proof.
  induction s as [| c s IH]; [reflexivity |].
  rewrite append_cons. now rewrite IH.
Qed.

Lemma string_length_app (s1 s2 : string) :
  String.length (s1 +:+ s2) = (String.length s1 + String.length s2)%nat.
Proof.
  induction s1 as [| c s1 IH]; [reflexivity |].
  rewrite append_cons. cbn [String.length]. now rewrite IH.
Qed.

Lemma concat_texts_app (l1 l2 : list string) :
  concat_texts (l1 ++ l2) = concat_texts l1 +:+ concat_texts l2.
Proof.
  induction l1 as [| t l1 IH]; cbn [concat_texts app]; [reflexivity |].
  now rewrite IH, append_assoc.
Qed.

Lemma needs_quotes_app (s1 s2 : string) :
  Csv.needs_quotes (s1 +:+ s2) = Csv.needs_quotes s1 || Csv.needs_quotes s2.
Proof.
  induction s1 as [| c s1 IH]; [reflexivity |].
  rewrite append_cons. cbn [Csv.needs_quotes]. now rewrite IH, orb_assoc.
Qed.

Lemma one_line_app (s1 s2 : string) :
  one_line (s1 +:+ s2) = one_line s1 && one_line s2.
Proof.
  induction s1 as [| c s1 IH]; [reflexivity |].
  rewrite append_cons. cbn [one_line]. now rewrite IH, andb_assoc.
Qed.

(** A character that forces no quotes is no comma, no quote and no line
    break. *)
Lemma special_false (c : ascii) :
  Csv.special c = false ->
  Ascii.eqb c Csv.delimiter = false /\ Ascii.eqb c Csv.quotechar = false /\
  Ascii.eqb c Csv.CR = false /\ Ascii.eqb c Csv.LF = false.
Proof.
  unfold Csv.special, Csv.lineterminator. cbn [Csv.mem_char].
  destruct (Ascii.eqb c Csv.delimiter), (Ascii.eqb c Csv.quotechar),
    (Ascii.eqb c Csv.CR), (Ascii.eqb c Csv.LF); simpl; intros H;
    try discriminate; auto.
Qed.

Lemma plain_one_line (s : string) :
  Csv.needs_quotes s = false -> one_line s = true.
Proof.
  induction s as [| c s IH]; cbn [Csv.needs_quotes one_line]; [reflexivity |].
  intros H. apply orb_false_elim in H as [Hc Hs].
  apply special_false in Hc as (_ & _ & -> & ->). simpl. auto.
Qed.

(** A field that needs no quotes is written as it is. *)
Lemma format_field_plain (v : value) :
  Csv.needs_quotes (Csv.field_text v) = false -> Csv.format_field v = Csv.field_text v.
Proof. unfold Csv.format_field. now intros ->. Qed.

Lemma format_row_plain (v1 v2 v3 : value) :
  Csv.needs_quotes (Csv.field_text v1) = false ->
  Csv.needs_quotes (Csv.field_text v2) = false ->
  Csv.needs_quotes (Csv.field_text v3) = false ->
  Csv.format_row [v1; v2; v3] = comma_join [v1; v2; v3] +:+ Csv.lineterminator.
Proof.
  intros H1 H2 H3. unfold Csv.format_row, comma_join. cbn [map].
  rewrite (format_field_plain _ H1), (format_field_plain _ H2), (format_field_plain _ H3).
  reflexivity.
Qed.

Lemma comma_join_one_line (v1 v2 v3 : value) :
  Csv.needs_quotes (Csv.field_text v1) = false ->
  Csv.needs_quotes (Csv.field_text v2) = false ->
  Csv.needs_quotes (Csv.field_text v3) = false ->
  one_line (comma_join [v1; v2; v3]) = true.
Proof.
  intros H1 H2 H3. unfold comma_join. cbn [map String.concat].
  rewrite !one_line_app.
  rewrite (plain_one_line _ H1), (plain_one_line _ H2), (plain_one_line _ H3).
  reflexivity.
Qed.

(** A line and its terminator, read back. *)
Lemma splitlines_line (l rest : string) :
  one_line l = true ->
  splitlines (l +:+ Csv.lineterminator +:+ rest) = l :: splitlines rest.
Proof.
  induction l as [| c l IH]; intros H.
  - reflexivity.
  - cbn [one_line] in H. rewrite append_cons. cbn [splitlines].
    destruct (Ascii.eqb c Csv.CR), (Ascii.eqb c Csv.LF); try discriminate.
    rewrite IH by exact H. reflexivity.
Qed.

(** *** The values the script can write *)

Lemma nombres_plain (n : string) : In n nombres -> Csv.needs_quotes n = false.
Proof.
  intros H.
  assert (Hall : forallb (fun s => negb (Csv.needs_quotes s)) nombres = true)
    by reflexivity.
  rewrite forallb_forall in Hall. apply negb_true_iff, Hall, H.
Qed.

Lemma ciudades_plain (c : string) : In c ciudades -> Csv.needs_quotes c = false.
Proof.
  intros H.
  assert (Hall : forallb (fun s => negb (Csv.needs_quotes s)) ciudades = true)
    by reflexivity.
  rewrite forallb_forall in Hall. apply negb_true_iff, Hall, H.
Qed.

Lemma edad_plain (a : Z) : 18 <= a <= 65 -> Csv.needs_quotes (Csv.str_of_int a) = false.
Proof.
  intros H.
  assert (Hall : forallb
            (fun n => negb (Csv.needs_quotes (Csv.str_of_int (Z.of_nat n))))
            (seq 18 48) = true) by (vm_compute; reflexivity).
  rewrite forallb_forall in Hall.
  specialize (Hall (Z.to_nat a)). rewrite Z2Nat.id in Hall by lia.
  apply negb_true_iff, Hall, in_seq. lia.
Qed.

Lemma header_plain :
  Forall (fun v => Csv.needs_quotes (Csv.field_text v) = false) header.
Proof. repeat constructor. Qed.

Lemma valid_row_fields (r : row) :
  valid_row r -> Forall (fun v => Csv.needs_quotes (Csv.field_text v) = false) r.
Proof.
  intros (n & a & c & -> & Hn & Ha & Hc).
  repeat constructor; simpl;
    [apply nombres_plain | apply edad_plain | apply ciudades_plain]; assumption.
Qed.

Lemma valid_row_plain (r : row) : valid_row r -> plain_row r.
Proof.
  intros H. pose proof (valid_row_fields r H) as HF.
  destruct H as (n & a & c & -> & _).
  inversion HF as [| ? ? H1 HF1]; subst.
  inversion HF1 as [| ? ? H2 HF2]; subst.
  inversion HF2 as [| ? ? H3 _]; subst.
  split; [apply format_row_plain | apply comma_join_one_line]; assumption.
Qed.

Lemma header_row_plain : plain_row header.
Proof. split; reflexivity. Qed.

(** The text of plain rows, read back line by line. *)
Lemma splitlines_rows (rows : list row) :
  Forall plain_row rows ->
  splitlines (concat_texts (map Csv.format_row rows)) = map comma_join rows.
Proof.
  induction 1 as [| r rows [Hf Hl] _ IH]; [reflexivity |].
  cbn [map concat_texts].
  rewrite Hf, append_assoc, splitlines_line by exact Hl.
  f_equal. exact IH.
Qed.

(** *** Fields read back *)

Lemma split_commas_plain (f : string) :
  Csv.needs_quotes f = false -> split_commas f = [f].
Proof.
  induction f as [| c f IH]; [reflexivity |].
  cbn [Csv.needs_quotes split_commas]. intros H.
  apply orb_false_elim in H as [Hc Hf].
  apply special_false in Hc as (-> & _). now rewrite IH.
Qed.

Lemma split_commas_field (f rest : string) :
  Csv.needs_quotes f = false ->
  split_commas (f +:+ String Csv.delimiter rest) = f :: split_commas rest.
Proof.
  induction f as [| c f IH]; [reflexivity |].
  cbn [Csv.needs_quotes]. intros H. rewrite append_cons. cbn [split_commas].
  apply orb_false_elim in H as [Hc Hf].
  apply special_false in Hc as (-> & _). now rewrite IH.
Qed.

Lemma edad_read_back (a : Z) : 18 <= a <= 65 -> int_of_str (Csv.str_of_int a) = Some a.
Proof.
  intros H.
  assert (Hall : forallb
            (fun n => match int_of_str (Csv.str_of_int (Z.of_nat n)) with
                      | Some z => Z.eqb z (Z.of_nat n)
                      | None => false
                      end)
            (seq 18 48) = true) by (vm_compute; reflexivity).
  rewrite forallb_forall in Hall.
  specialize (Hall (Z.to_nat a)). rewrite Z2Nat.id in Hall by lia.
  destruct (int_of_str (Csv.str_of_int a)) as [z |].
  - f_equal. apply Z.eqb_eq, Hall, in_seq. lia.
  - discriminate Hall. apply in_seq. lia.
Qed.

(** The line of a valid row splits into its three fields: the name, the
    decimal numeral of the age, the city. *)
Lemma valid_row_read_back (r : row) :
  valid_row r ->
  exists (n : string) (a : Z) (c : string),
    r = [VStr n; VInt a; VStr c] /\
    In n nombres /\ 18 <= a <= 65 /\ In c ciudades /\
    split_commas (comma_join r) = [n; Csv.str_of_int a; c] /\
    int_of_str (Csv.str_of_int a) = Some a.
Proof.
  intros (n & a & c & -> & Hn & Ha & Hc).
  exists n, a, c. repeat split; try assumption; try lia.
  - unfold comma_join. cbn [map String.concat Csv.field_text].
    rewrite !append_cons, !append_nil_l.
    rewrite split_commas_field by now apply nombres_plain.
    rewrite split_commas_field by now apply edad_plain.
    rewrite split_commas_plain by now apply ciudades_plain.
    reflexivity.
  - now apply edad_read_back.
Qed.

Lemma plain_rows_text (rows : list row) :
  Forall plain_row rows ->
  concat_texts (map Csv.format_row rows) = lines_text Csv.lineterminator rows.
Proof.
  unfold lines_text.
  induction 1 as [| r rows [Hf _] _ IH]; [reflexivity |].
  cbn [map concat_texts]. now rewrite Hf, IH.
Qed.

(** *** The length of the lines *)

Lemma valid_row_length (r : row) :
  valid_row r -> (13 <= String.length (comma_join r) <= 19)%nat.
Proof.
  intros (n & a & c & -> & Hn & Ha & Hc).
  assert (Hns : forallb (fun s => Nat.leb 3 (String.length s) &&
                                  Nat.leb (String.length s) 6) nombres = true)
    by reflexivity.
  assert (Hcs : forallb (fun s => Nat.leb 6 (String.length s) &&
                                  Nat.leb (String.length s) 9) ciudades = true)
    by reflexivity.
  assert (Has : forallb (fun k => Nat.eqb (String.length (Csv.str_of_int (Z.of_nat k))) 2)
                  (seq 18 48) = true) by (vm_compute; reflexivity).
  rewrite forallb_forall in Hns, Hcs, Has.
  specialize (Hns n Hn). specialize (Hcs c Hc). specialize (Has (Z.to_nat a)).
  rewrite Z2Nat.id in Has by lia.
  apply andb_true_iff in Hns as [Hn1 Hn2]. apply andb_true_iff in Hcs as [Hc1 Hc2].
  apply Nat.leb_le in Hn1, Hn2, Hc1, Hc2.
  assert (Ha2 : String.length (Csv.str_of_int a) = 2%nat)
    by (apply Nat.eqb_eq, Has, in_seq; lia).
  unfold comma_join. cbn [map String.concat Csv.field_text].
  rewrite !string_length_app, Ha2. cbn [String.length]. lia.
Qed.

Lemma lines_text_length (rows : list row) :
  Forall (fun r => (13 <= String.length (comma_join r) <= 19)%nat) rows ->
  (15 * List.length rows <= String.length (lines_text Csv.lineterminator rows)
   <= 21 * List.length rows)%nat.
Proof.
  unfold lines_text.
  induction 1 as [| r rows Hr _ IH]; [simpl; lia |].
  cbn [map concat_texts List.length]. rewrite !string_length_app.
  change (String.length Csv.lineterminator) with 2%nat. lia.
Qed.

End TextFacts.

(** ** Writing the file *)

Section OsFacts.
Context (e : Os.env).

Lemma world_eq (fs1 fs2 : gmap string string) (b1 b2 : string) (t1 t2 : list Os.call) :
  fs1 = fs2 -> b1 = b2 -> t1 = t2 ->
  {| Os.files := fs1; Os.buffered := b1; Os.trace := t1 |} =
  {| Os.files := fs2; Os.buffered := b2; Os.trace := t2 |}.
Proof. now intros -> -> ->. Qed.

Lemma take_drop_chars (k : nat) (s : string) :
  Os.take_chars k s +:+ Os.drop_chars k s = s.
Proof.
  revert k; induction s as [| c s IH]; intros [| k]; try reflexivity.
  cbn [Os.take_chars Os.drop_chars]. rewrite append_cons. now rewrite IH.
Qed.

(** *** The file operations, read on the open file *)

Lemma flush_run (f : Os.file) (w : Os.world) (cur : string) :
  Os.files w !! Os.f_path f = Some cur ->
  Os.flush e f w =
  match flushed e (Os.f_path f) {| on_disk := cur; in_buffer := Os.buffered w |} with
  | (r, st) =>
      (raise_errno r,
       {| Os.files := <[Os.f_path f := on_disk st]> (Os.files w);
          Os.buffered := in_buffer st;
          Os.trace := Os.trace w |})
  end.
Proof.
  intros Hcur. unfold Os.flush, flushed, Os.content. rewrite Hcur.
  change (default EmptyString (Some cur)) with cur.
  destruct w as [fs b tr]. cbn [Os.files Os.buffered Os.trace on_disk in_buffer] in *.
  destruct b as [| c b].
  - cbn [raise_errno on_disk in_buffer]. f_equal.
    apply world_eq; try reflexivity. symmetry. now apply insert_id.
  - destruct (Os.write_error e (Os.f_path f) cur (String c b)) as [[k errno] |];
      reflexivity.
Qed.

Lemma write_run (f : Os.file) (s : string) (w : Os.world) (cur : string) :
  Os.f_newline f = Some EmptyString ->
  Os.files w !! Os.f_path f = Some cur ->
  Os.write e f s w =
  match wrote e (Os.f_path f) s {| on_disk := cur; in_buffer := Os.buffered w |} with
  | (r, st) =>
      (raise_errno r,
       {| Os.files := <[Os.f_path f := on_disk st]> (Os.files w);
          Os.buffered := in_buffer st;
          Os.trace := Os.trace w ++ [Os.CallWrite (Os.f_path f) s] |})
  end.
Proof.
  intros Hnl Hcur. unfold Os.write, wrote. rewrite Hnl.
  cbn [Os.translate String.eqb orb Os.buffered on_disk in_buffer].
  destruct (Nat.leb Os.chunk_size (String.length (Os.buffered w +:+ s))).
  - rewrite (flush_run f _ cur) by exact Hcur. reflexivity.
  - cbn [raise_errno on_disk in_buffer]. f_equal.
    apply world_eq; try reflexivity. symmetry. now apply insert_id.
Qed.

Lemma writerows_run (f : Os.file) (rows : list row) :
  Os.f_newline f = Some EmptyString ->
  forall (w : Os.world) (cur : string),
    Os.files w !! Os.f_path f = Some cur ->
    Os.writerows e f rows w =
    match fed e (Os.f_path f) (map Csv.format_row rows)
            {| on_disk := cur; in_buffer := Os.buffered w |} with
    | (r, n, st) =>
        (raise_errno r,
         {| Os.files := <[Os.f_path f := on_disk st]> (Os.files w);
            Os.buffered := in_buffer st;
            Os.trace :=
              Os.trace w ++
              map (Os.CallWrite (Os.f_path f)) (firstn n (map Csv.format_row rows)) |})
    end.
Proof.
  intros Hnl. induction rows as [| r rows IH]; intros w cur Hcur.
  - cbn [Os.writerows map fed raise_errno on_disk in_buffer firstn]. f_equal.
    destruct w as [fs b tr]; cbn [Os.files Os.buffered Os.trace] in *.
    apply world_eq; [symmetry; now apply insert_id | reflexivity | now rewrite app_nil_r].
  - cbn [Os.writerows map fed]. unfold Os.writerow.
    rewrite (write_run f _ w cur Hnl Hcur).
    destruct (wrote e (Os.f_path f) (Csv.format_row r)
                {| on_disk := cur; in_buffer := Os.buffered w |}) as [[errno |] [d b]];
      cbn [raise_errno on_disk in_buffer].
    + reflexivity.
    + rewrite (IH _ d) by (cbn [Os.files]; apply lookup_insert_eq).
      cbn [Os.files Os.buffered Os.trace].
      destruct (fed e (Os.f_path f) (map Csv.format_row rows)
                  {| on_disk := d; in_buffer := b |}) as [[r0 n] st].
      f_equal. apply world_eq; [apply insert_insert_eq | reflexivity |].
      cbn [firstn map]. now rewrite <- app_assoc.
Qed.

(** The [with] block of the script, on the files [fs]. *)
Lemma write_csv_run (rows : list row) (fs : gmap string string) :
  write_csv e rows
    {| Os.files := fs; Os.buffered := EmptyString; Os.trace := [] |} =
  match Os.open_error e filename with
  | Some errno =>
      (inl (OSError errno),
       {| Os.files := fs; Os.buffered := EmptyString;
          Os.trace := [Os.CallOpen filename] |})
  | None =>
      match written e filename (map Csv.format_row rows) with
      | (r, n, text) =>
          (raise_errno r,
           {| Os.files := <[filename := text]> fs;
              Os.buffered := EmptyString;
              Os.trace :=
                Os.CallOpen filename ::
                map (Os.CallWrite filename) (firstn n (map Csv.format_row rows)) ++
                [Os.CallClose filename] |})
      end
  end.
Proof.
  unfold write_csv, Os.with_open, Os.open_w.
  destruct (Os.open_error e filename) as [errno |]; [reflexivity |].
  rewrite (writerows_run {| Os.f_path := filename; Os.f_newline := Some EmptyString |}
             rows eq_refl _ EmptyString)
    by (cbn [Os.record Os.files Os.f_path]; apply lookup_insert_eq).
  cbn [Os.f_path Os.record Os.files Os.buffered Os.trace]. unfold written.
  destruct (fed e filename (map Csv.format_row rows)
              {| on_disk := EmptyString; in_buffer := EmptyString |}) as [[r n] [d b]].
  unfold Os.close.
  rewrite (flush_run {| Os.f_path := filename; Os.f_newline := Some EmptyString |} _ d)
    by (cbn [Os.files Os.f_path on_disk]; apply lookup_insert_eq).
  cbn [Os.f_path Os.files Os.buffered Os.trace on_disk in_buffer].
  destruct (flushed e filename {| on_disk := d; in_buffer := b |}) as [[errno |] st'];
    destruct r as [errno0 |]; cbn [raise_errno Os.files Os.trace app];
    f_equal; apply world_eq; try reflexivity;
    now rewrite !insert_insert_eq.
Qed.

(** *** What reaches the file *)

(** Nothing is lost between the file and its buffer. *)
Lemma flushed_kept (path : string) (st st' : stored) (r : option Z) :
  flushed e path st = (r, st') ->
  on_disk st' +:+ in_buffer st' = on_disk st +:+ in_buffer st /\
  (r = None -> in_buffer st' = EmptyString).
Proof.
  unfold flushed. destruct (in_buffer st) as [| c b] eqn:Hb.
  - intros [= <- <-]. now rewrite Hb.
  - destruct (Os.write_error e path (on_disk st) (String c b)) as [[k errno] |];
      intros [= <- <-]; cbn [on_disk in_buffer].
    + split; [| discriminate]. now rewrite append_assoc, take_drop_chars.
    + split; [apply append_nil_r | reflexivity].
Qed.

Lemma wrote_kept (path text : string) (st st' : stored) (r : option Z) :
  wrote e path text st = (r, st') ->
  on_disk st' +:+ in_buffer st' = on_disk st +:+ in_buffer st +:+ text.
Proof.
  unfold wrote.
  destruct (Nat.leb Os.chunk_size _).
  - intros H. apply flushed_kept in H as [H _]. exact H.
  - now intros [= <- <-].
Qed.

Lemma fed_kept (path : string) (texts : list string) :
  forall (st st' : stored) (r : option Z) (n : nat),
    fed e path texts st = (r, n, st') ->
    on_disk st' +:+ in_buffer st' =
      on_disk st +:+ in_buffer st +:+ concat_texts (firstn n texts) /\
    (n <= List.length texts)%nat /\
    (r = None -> n = List.length texts).
Proof.
  induction texts as [| t texts IH]; intros st st' r n; cbn [fed].
  - intros [= <- <- <-]. cbn [firstn concat_texts List.length].
    now rewrite append_nil_r.
  - destruct (wrote e path t st) as [[errno |] st1] eqn:Hw.
    + intros [= <- <- <-]. apply wrote_kept in Hw.
      cbn [firstn concat_texts List.length]. rewrite append_nil_r.
      split; [exact Hw |]. split; [lia | discriminate].
    + destruct (fed e path texts st1) as [[r1 n1] st2] eqn:Hf.
      intros [= <- <- <-]. apply wrote_kept in Hw.
      destruct (IH _ _ _ _ Hf) as (Hk & Hn & Hr).
      cbn [firstn concat_texts List.length].
      rewrite Hk, <- append_assoc, Hw, !append_assoc.
      split; [reflexivity |]. split; [lia |]. intros H. now rewrite (Hr H).
Qed.

(** When nothing is raised, every write was made and the file holds all the
    texts. *)
Lemma written_all (path : string) (texts : list string) (n : nat) (text : string) :
  written e path texts = (None, n, text) ->
  n = List.length texts /\ text = concat_texts texts.
Proof.
  unfold written.
  destruct (fed e path texts {| on_disk := EmptyString; in_buffer := EmptyString |})
    as [[r n0] st] eqn:Hf.
  destruct (flushed e path st) as [[errno |] st'] eqn:Hfl; [discriminate |].
  intros [= -> <- <-].
  destruct (fed_kept _ _ _ _ _ _ Hf) as (Hk & _ & Hn).
  destruct (flushed_kept _ _ _ _ Hfl) as (Hk' & Hb).
  specialize (Hn eq_refl). specialize (Hb eq_refl). subst n0.
  rewrite Hb, append_nil_r in Hk'. rewrite Hk', Hk.
  cbn [on_disk in_buffer]. rewrite !append_nil_l.
  now rewrite List.firstn_all.
Qed.

(** Texts that stay below the chunk size wait in the buffer. *)
Lemma fed_small (path : string) (texts : list string) :
  forall st : stored,
    (String.length (in_buffer st +:+ concat_texts texts) < Os.chunk_size)%nat ->
    fed e path texts st =
      (None, List.length texts,
       {| on_disk := on_disk st; in_buffer := in_buffer st +:+ concat_texts texts |}).
Proof.
  induction texts as [| t texts IH]; intros [d b]; cbn [fed concat_texts on_disk in_buffer].
  - intros _. now rewrite append_nil_r.
  - intros Hlen. unfold wrote. cbn [on_disk in_buffer].
    rewrite <- append_assoc in Hlen.
    assert (Hb : (String.length (b +:+ t) < Os.chunk_size)%nat).
    { rewrite string_length_app in Hlen. lia. }
    apply Nat.leb_gt in Hb. rewrite Hb.
    rewrite (IH {| on_disk := d; in_buffer := b +:+ t |}) by exact Hlen.
    cbn [on_disk in_buffer List.length]. now rewrite append_assoc.
Qed.

(** A text below the chunk size reaches the system once, when the file is
    closed: whole, or as far as the system takes it. *)
Lemma written_small (path : string) (texts : list string) :
  (String.length (concat_texts texts) < Os.chunk_size)%nat ->
  concat_texts texts <> EmptyString ->
  written e path texts =
  match Os.write_error e path EmptyString (concat_texts texts) with
  | None => (None, List.length texts, concat_texts texts)
  | Some (k, errno) =>
      (Some errno, List.length texts, Os.take_chars k (concat_texts texts))
  end.
Proof.
  intros Hlen Hne. unfold written.
  rewrite fed_small by (cbn [in_buffer]; now rewrite append_nil_l).
  unfold flushed. cbn [on_disk in_buffer]. rewrite append_nil_l.
  destruct (concat_texts texts) as [| c s]; [congruence |].
  destruct (Os.write_error e path EmptyString (String c s)) as [[k errno] |];
    reflexivity.
Qed.

(** A system that refuses no write. *)
Lemma fed_accepted (path : string) (texts : list string) :
  (forall cur text : string, Os.write_error e path cur text = None) ->
  forall st : stored, exists st' : stored,
    fed e path texts st = (None, List.length texts, st').
Proof.
  intros Hacc. induction texts as [| t texts IH]; intros st; cbn [fed].
  - now exists st.
  - assert (Hw : exists st1, wrote e path t st = (None, st1)).
    { unfold wrote. destruct (Nat.leb Os.chunk_size _); [| eauto].
      unfold flushed. destruct (in_buffer _); [eauto |]. rewrite Hacc. eauto. }
    destruct Hw as [st1 ->]. destruct (IH st1) as [st' ->]. now exists st'.
Qed.

Lemma written_accepted (path : string) (texts : list string) :
  (forall cur text : string, Os.write_error e path cur text = None) ->
  written e path texts = (None, List.length texts, concat_texts texts).
Proof.
  intros Hacc.
  assert (H : exists n text, written e path texts = (None, n, text)).
  { unfold written.
    destruct (fed_accepted path texts Hacc
                {| on_disk := EmptyString; in_buffer := EmptyString |}) as [st ->].
    unfold flushed. destruct (in_buffer st); [eauto |]. rewrite Hacc. eauto. }
  destruct H as (n & text & H). destruct (written_all _ _ _ _ H) as [-> ->].
  exact H.
Qed.

End OsFacts.

(** ** The sources and environments of the examples *)

Lemma lowest_first_and_min : first_and_min lowest.
Proof. split; reflexivity. Qed.

Lemma first_and_min_lawful {G : Type} (src : Rand.Source G) :
  first_and_min src -> Rand.lawful src.
Proof.
  intros [Hc Hr]. split.
  - intros [| s seq] g Hne; [congruence |]. rewrite Hc. now left.
  - intros a b g Hab. rewrite Hr. lia.
Qed.

Lemma lowest_lawful : Rand.lawful lowest.
Proof. apply first_and_min_lawful, lowest_first_and_min. Qed.

Lemma last_in (s : string) (seq : list string) (d : string) :
  In (List.last (s :: seq) d) (s :: seq).
Proof.
  revert s; induction seq as [| s' seq IH]; intros s; [now left |].
  right. apply IH.
Qed.

Lemma highest_lawful : Rand.lawful highest.
Proof.
  split.
  - intros [| s seq] g Hne; [congruence |]. apply last_in.
  - intros a b g Hab. simpl. lia.
Qed.

Lemma lcg_lawful : Rand.lawful lcg.
Proof.
  split.
  - intros seq g Hne. cbn [lcg Rand.src_choice fst].
    apply nth_In.
    assert (0 < Z.of_nat (List.length seq)) by (destruct seq; [congruence | simpl; lia]).
    pose proof (Z.mod_pos_bound g (Z.of_nat (List.length seq)) ltac:(lia)). lia.
  - intros a b g Hab. cbn [lcg Rand.src_randint fst].
    pose proof (Z.mod_pos_bound g (b - a + 1) ltac:(lia)). lia.
Qed.

(** ** Runs of the script *)

Section RunFacts.
Context {G : Type} (e : Os.env) (src : Rand.Source G).

Lemma main_outcome (g : G) (fs : gmap string string) :
  exists (rows : list row) (g' : G),
    Rand.run src data g = inr (header :: rows, g') /\
    drawn_rows (Rand.draws src data g) rows /\
    List.length rows = 50%nat /\
    main e src g fs =
      Os.outcome_of
        (write_csv e (header :: rows)
           {| Os.files := fs; Os.buffered := EmptyString; Os.trace := [] |}).
Proof.
  destruct (data_run src g) as (rows & g' & Hrun & Hd & Hl).
  exists rows, g'. repeat split; try assumption.
  unfold main. now rewrite Hrun.
Qed.

(** A run that raises nothing has written every row to the file. *)
Lemma main_success (g g' : G) (fs : gmap string string) (rows : list row) :
  Rand.run src data g = inr (rows, g') ->
  Os.raised (main e src g fs) = None ->
  Os.open_error e filename = None /\
  written e filename (map Csv.format_row rows) =
    (None, List.length (map Csv.format_row rows), concat_texts (map Csv.format_row rows)) /\
  output e src g fs = Some (concat_texts (map Csv.format_row rows)).
Proof.
  unfold output, main. intros ->. rewrite write_csv_run.
  destruct (Os.open_error e filename) as [errno |]; [discriminate |].
  destruct (written e filename (map Csv.format_row rows)) as [[[errno |] n] text] eqn:Hw;
    [discriminate |].
  intros _. destruct (written_all e _ _ _ _ Hw) as [-> ->].
  repeat split. cbn [Os.outcome_of raise_errno Os.final Os.files]. apply lookup_insert_eq.
Qed.

(** With a lawful source the rows are valid, hence written plainly. *)
Lemma lawful_rows (g : G) :
  Rand.lawful src ->
  exists (rows : list row) (g' : G),
    Rand.run src data g = inr (header :: rows, g') /\
    drawn_rows (Rand.draws src data g) rows /\
    List.length rows = 50%nat /\
    Forall valid_row rows /\
    Forall plain_row (header :: rows).
Proof.
  intros Hlaw. destruct (data_run src g) as (rows & g' & Hrun & Hd & Hl).
  exists rows, g'. repeat split; try assumption.
  - eapply drawn_rows_valid; [exact Hd | now apply draws_ok].
  - constructor; [apply header_row_plain |].
    eapply List.Forall_impl; [apply valid_row_plain |].
    eapply drawn_rows_valid; [exact Hd | now apply draws_ok].
Qed.

(** The lines of the file after a successful run with a lawful source. *)
Lemma lawful_output_lines (g : G) (fs : gmap string string) :
  Rand.lawful src ->
  Os.raised (main e src g fs) = None ->
  exists (rows : list row) (g' : G),
    Rand.run src data g = inr (header :: rows, g') /\
    List.length rows = 50%nat /\
    Forall valid_row rows /\
    output e src g fs = Some (lines_text Csv.lineterminator (header :: rows)) /\
    output_lines e src g fs = map comma_join (header :: rows).
Proof.
  intros Hlaw Hok.
  destruct (lawful_rows g Hlaw) as (rows & g' & Hrun & _ & Hl & Hv & Hp).
  destruct (main_success g g' fs _ Hrun Hok) as (_ & _ & Hout).
  exists rows, g'. repeat split; try assumption.
  - rewrite Hout. f_equal. now apply plain_rows_text.
  - unfold output_lines. rewrite Hout. now apply splitlines_rows.
Qed.

(** With a lawful source the text of the rows is far below the chunk size
    of the file. *)
Lemma lawful_text_length (g : G) :
  Rand.lawful src ->
  exists (rows : list row) (g' : G),
    Rand.run src data g = inr (header :: rows, g') /\
    concat_texts (map Csv.format_row (header :: rows)) =
      lines_text Csv.lineterminator (header :: rows) /\
    (770 <= String.length (concat_texts (map Csv.format_row (header :: rows)))
     <= 1070)%nat.
Proof.
  intros Hlaw.
  destruct (lawful_rows g Hlaw) as (rows & g' & Hrun & _ & Hl & Hv & Hp).
  exists rows, g'. split; [exact Hrun |].
  pose proof (plain_rows_text _ Hp) as Htext. split; [exact Htext |].
  rewrite Htext. unfold lines_text. cbn [map concat_texts]. rewrite string_length_app.
  assert (Hlen : Forall (fun r => (13 <= String.length (comma_join r) <= 19)%nat) rows)
    by (eapply List.Forall_impl; [apply valid_row_length | exact Hv]).
  pose proof (lines_text_length rows Hlen) as Hb. unfold lines_text in Hb.
  rewrite Hl in Hb.
  change (String.length (comma_join header +:+ Csv.lineterminator)) with 20%nat.
  lia.
Qed.

Lemma chunk_size_large : (1070 < Os.chunk_size)%nat.
Proof. apply Nat.ltb_lt. vm_compute. reflexivity. Qed.

(** So with a lawful source the rows reach the system in one piece, when the
    file is closed. *)
Lemma lawful_written (g g' : G) (rows : list row) :
  Rand.lawful src ->
  Rand.run src data g = inr (rows, g') ->
  written e filename (map Csv.format_row rows) =
  match Os.write_error e filename EmptyString (concat_texts (map Csv.format_row rows)) with
  | None =>
      (None, List.length (map Csv.format_row rows),
       concat_texts (map Csv.format_row rows))
  | Some (k, errno) =>
      (Some errno, List.length (map Csv.format_row rows),
       Os.take_chars k (concat_texts (map Csv.format_row rows)))
  end.
Proof.
  intros Hlaw Hrun.
  destruct (lawful_text_length g Hlaw) as (rows' & g'' & Hrun' & _ & Hlen).
  rewrite Hrun in Hrun'. injection Hrun' as -> _.
  pose proof chunk_size_large as Hc.
  apply written_small; [lia |].
  intros H. rewrite H in Hlen. cbn [String.length] in Hlen. lia.
Qed.

End RunFacts.

(** ** The script on the examples *)

Example lowest_first_lines :
  firstn 3 (output_lines (willing Os.Posix) lowest tt ∅) =
  ["Nombre,Edad,Ciudad"; "Juan,18,Madrid"; "Juan,18,Madrid"].
Proof. vm_compute. reflexivity. Qed.

Example lcg_first_rows :
  exists (rows : list row) (g' : Z),
    Rand.run lcg data 7 = inr (rows, g') /\
    firstn 3 rows =
      [header; [VStr "Sofia"; VInt 54; VStr "Sevilla"];
       [VStr "Diego"; VInt 21; VStr "Madrid"]].
Proof. eexists _, _. split; vm_compute; reflexivity. Qed.

(** A field with a comma is quoted, a quote inside it is doubled, a negative
    number keeps its sign, and a row of one empty field is a pair of
    quotes. *)
Example format_row_quotes :
  Csv.format_row [VStr "a,b"; VInt (-5); VStr (String Csv.quotechar "x")] =
    Csv.quoted "a,b" +:+ ",-5," +:+
    String Csv.quotechar (String Csv.quotechar (String Csv.quotechar
      (String "x" (String Csv.quotechar Csv.lineterminator)))) /\
  Csv.format_row [VStr EmptyString] =
    String Csv.quotechar (String Csv.quotechar Csv.lineterminator) /\
  Csv.format_row [] = Csv.lineterminator.
Proof. repeat split. Qed.

(** Only a file opened with [newline=None] has its line feeds translated. *)
Example translate_newline_modes :
  Os.translate Os.Windows None two_lines =
    String "a" (String Csv.CR (String Csv.LF (String "b" EmptyString))) /\
  Os.translate Os.Posix None two_lines = two_lines /\
  Os.translate Os.Windows (Some EmptyString) two_lines = two_lines.
Proof. repeat split. Qed.

(** The writes of the rows only fill the buffer: on a disk with room for 40
    characters all 51 return, the file is still empty and the 910
    characters of the rows wait for [close]. *)
Example rows_wait_in_buffer :
  match Rand.run lcg data 7 with
  | inr (rows, _) =>
      let (r, w) :=
        Os.writerows (small_disk Os.Posix 40)
          {| Os.f_path := filename; Os.f_newline := Some EmptyString |} rows
          {| Os.files := {[ filename := EmptyString ]};
             Os.buffered := EmptyString; Os.trace := [] |} in
      Some (r, Os.files w !! filename, String.length (Os.buffered w),
            List.length (Os.trace w))
  | inl _ => None
  end = Some (inr tt, Some EmptyString, 910%nat, 51%nat).
Proof. vm_compute. reflexivity. Qed.

(** A missing directory: one call, no file, status 1. *)
Example no_directory_run :
  main (no_directory Os.Posix) lcg 7 ∅ =
  {| Os.raised := Some (OSError 2);
     Os.final := {| Os.files := ∅; Os.buffered := EmptyString;
                    Os.trace := [Os.CallOpen "personas.csv"] |} |}.
Proof. vm_compute. reflexivity. Qed.

(** A disk with room for 40 characters: all 51 writes go to the buffer, the
    error is raised when the file is closed, the status is 1, and the file
    keeps the 40 characters that fitted, cut inside the second data row. *)
Example small_disk_run :
  let o := main (small_disk Os.Posix 40) lcg 7 ∅ in
  Os.raised o = Some (OSError 28) /\ Os.exit_status o = 1 /\
  List.length (Os.trace (Os.final o)) = 53%nat /\
  List.last (Os.trace (Os.final o)) (Os.CallOpen EmptyString) = Os.CallClose filename /\
  option_map splitlines (Os.files (Os.final o) !! filename) =
    Some ["Nombre,Edad,Ciudad"; "Sofia,54,Sevilla"; "Di"].
Proof. vm_compute. repeat split. Qed.

(** Outside the contract of the [random] module the file is still 51
    records, but a quoted field that holds a line feed makes them 151
    lines. *)
Example unlawful_line_count :
  Os.raised (main (willing Os.Posix) unlawful tt ∅) = None /\
  List.length (output_lines (willing Os.Posix) unlawful tt ∅) = 151%nat.
Proof. split; vm_compute; reflexivity. Qed.

(** * The claims *)

(** ** C1: the header line *)

(** C1 as stated does not hold: the claim reads the header line as
    [Name,Age,City], but the script writes the Spanish labels. On a run with
    the source [lowest] on an empty working directory the first line of
    [personas.csv] is [Nombre,Edad,Ciudad], a different string. *)
Lemma header_line_counterexample :
  nth_error (output_lines (willing Os.Posix) lowest tt ∅) 0 = Some "Nombre,Edad,Ciudad" /\
  Some "Nombre,Edad,Ciudad" <> Some "Name,Age,City".
Proof. split; [vm_compute; reflexivity | discriminate]. Qed.

(** C1, amended: on every run the dataset starts with the header row
    [Nombre], [Edad], [Ciudad], and on every run that raises nothing the
    first line of [personas.csv] is exactly [Nombre,Edad,Ciudad], whatever
    the random source. *)
Theorem header_line_nombre_edad_ciudad {G : Type} (e : Os.env) (src : Rand.Source G)
    (g : G) (fs : gmap string string) :
  Os.raised (main e src g fs) = None ->
  (exists (rows : list row) (g' : G), Rand.run src data g = inr (header :: rows, g')) /\
  comma_join header = "Nombre,Edad,Ciudad" /\
  nth_error (output_lines e src g fs) 0 = Some "Nombre,Edad,Ciudad".
Proof.
  intros Hok. destruct (data_run src g) as (rows & g' & Hrun & _).
  split; [now exists rows, g' |]. split; [reflexivity |].
  destruct (main_success e src g g' fs _ Hrun Hok) as (_ & _ & Hout).
  unfold output_lines. rewrite Hout. cbn [map concat_texts].
  destruct header_row_plain as [Hf Hl]. rewrite Hf, append_assoc.
  rewrite splitlines_line by exact Hl. reflexivity.
Qed.

Lemma header_line_witness :
  Os.raised (main (willing Os.Windows) lcg 7 ∅) = None /\
  nth_error (output_lines (willing Os.Windows) lcg 7 ∅) 0 = Some "Nombre,Edad,Ciudad".
Proof.
  assert (H : Os.raised (main (willing Os.Windows) lcg 7 ∅) = None)
    by (vm_compute; reflexivity).
  split; [exact H |].
  exact (proj2 (proj2 (header_line_nombre_edad_ciudad (willing Os.Windows) lcg 7 ∅ H))).
Defined.

(** ** C2: the number of lines *)

(** C2: on every run that raises nothing, whatever a lawful random source
    answers, [personas.csv] holds exactly 51 lines: the header line, then one
    line for each of the 50 data rows. *)
Theorem output_has_51_lines {G : Type} (e : Os.env) (src : Rand.Source G)
    (g : G) (fs : gmap string string) :
  Rand.lawful src ->
  Os.raised (main e src g fs) = None ->
  exists (rows : list row) (g' : G),
    Rand.run src data g = inr (header :: rows, g') /\
    List.length rows = 50%nat /\
    output_lines e src g fs = comma_join header :: map comma_join rows /\
    List.length (output_lines e src g fs) = 51%nat.
Proof.
  intros Hlaw Hok.
  destruct (lawful_output_lines e src g fs Hlaw Hok)
    as (rows & g' & Hrun & Hl & _ & _ & Hlines).
  exists rows, g'. repeat split; try assumption.
  rewrite Hlines. cbn [map List.length]. now rewrite length_map, Hl.
Qed.

Lemma output_has_51_lines_witness :
  Rand.lawful lcg /\
  Os.raised (main (willing Os.Posix) lcg 2024 ∅) = None /\
  List.length (output_lines (willing Os.Posix) lcg 2024 ∅) = 51%nat.
Proof.
  assert (H : Os.raised (main (willing Os.Posix) lcg 2024 ∅) = None)
    by (vm_compute; reflexivity).
  split; [exact lcg_lawful |]. split; [exact H |].
  destruct (output_has_51_lines (willing Os.Posix) lcg 2024 ∅ lcg_lawful H)
    as (rows & g' & _ & _ & _ & Hlen).
  exact Hlen.
Defined.

(** ** C3: the fields of the data rows *)

(** C3: with a lawful random source every one of the 50 data rows is a name
    of the 10-element list [nombres], an integer age with [18 <= age <= 65]
    and a city of the 10-element list [ciudades]; in the file, each data line
    splits at its commas into that name, the decimal numeral of that age and
    that city. Both ends of the age range are attained: there are lawful
    runs with a row of age 18 and with a row of age 65. *)
Theorem data_rows_in_range :
  (forall (G : Type) (e : Os.env) (src : Rand.Source G) (g : G) (fs : gmap string string),
     Rand.lawful src ->
     exists (rows : list row) (g' : G),
       Rand.run src data g = inr (header :: rows, g') /\
       List.length rows = 50%nat /\
       Forall valid_row rows /\
       (Os.raised (main e src g fs) = None ->
        output_lines e src g fs = comma_join header :: map comma_join rows /\
        Forall (fun r => exists (n : string) (a : Z) (c : string),
                  split_commas (comma_join r) = [n; Csv.str_of_int a; c] /\
                  In n nombres /\
                  int_of_str (Csv.str_of_int a) = Some a /\ 18 <= a <= 65 /\
                  In c ciudades) rows)) /\
  (List.length nombres = 10%nat /\ List.length ciudades = 10%nat) /\
  (exists (G : Type) (src : Rand.Source G) (g g' : G) (rows : list row) (n c : string),
     Rand.lawful src /\ Rand.run src data g = inr (header :: rows, g') /\
     In [VStr n; VInt 18; VStr c] rows) /\
  (exists (G : Type) (src : Rand.Source G) (g g' : G) (rows : list row) (n c : string),
     Rand.lawful src /\ Rand.run src data g = inr (header :: rows, g') /\
     In [VStr n; VInt 65; VStr c] rows).
Proof.
  split; [| split; [split; reflexivity | split]].
  - intros G e src g fs Hlaw.
    destruct (lawful_rows src g Hlaw) as (rows & g' & Hrun & _ & Hl & Hv & _).
    exists rows, g'. repeat split; try assumption.
    + destruct (lawful_output_lines e src g fs Hlaw H)
        as (rows' & g'' & Hrun' & _ & _ & _ & Hlines).
      rewrite Hrun in Hrun'. injection Hrun' as <- _. exact Hlines.
    + eapply List.Forall_impl; [| exact Hv].
      intros r Hr.
      destruct (valid_row_read_back r Hr) as (n & a & c & _ & Hn & Ha & Hc & Hs & Hi).
      exists n, a, c. auto.
  - exists unit, lowest, tt, tt,
      (List.repeat [VStr "Juan"; VInt 18; VStr "Madrid"] 50), "Juan", "Madrid".
    split; [apply lowest_lawful |]. split; [vm_compute; reflexivity | now left].
  - exists unit, highest, tt, tt,
      (List.repeat [VStr "Elena"; VInt 65; VStr "Alicante"] 50), "Elena", "Alicante".
    split; [apply highest_lawful |]. split; [vm_compute; reflexivity | now left].
Qed.

Lemma data_rows_in_range_witness :
  Rand.lawful lcg /\
  exists (rows : list row) (g' : Z),
    Rand.run lcg data 7 = inr (header :: rows, g') /\ Forall valid_row rows.
Proof.
  split; [exact lcg_lawful |].
  destruct (proj1 data_rows_in_range Z (willing Os.Posix) lcg 7 ∅ lcg_lawful)
    as (rows & g' & Hrun & _ & Hv & _).
  exists rows, g'. split; [exact Hrun | exact Hv].
Defined.

(** ** C4: the source fixed to the first element and the minimum *)

Lemma drawn_rows_first_and_min ds rows :
  drawn_rows ds rows ->
  Forall draw_first_and_min ds ->
  Forall (fun r => r = [VStr "Juan"; VInt 18; VStr "Madrid"]) rows.
Proof.
  induction 1 as [| n a c ds rows Hd IH]; intros Hfm; constructor.
  - inversion Hfm as [| ? ? Hn Hfm1]; subst.
    inversion Hfm1 as [| ? ? Ha Hfm2]; subst.
    inversion Hfm2 as [| ? ? Hc _]; subst.
    simpl in Hn, Ha, Hc. congruence.
  - apply IH. do 3 (apply Forall_inv_tail in Hfm). exact Hfm.
Qed.

(** C4: when the random source is fixed so that every selection returns the
    first element of its list and every age draw the minimum of its range,
    the first data row is [Juan], 18, [Madrid], and on a run that raises
    nothing the second line of the file, the first after the header, is
    exactly [Juan,18,Madrid]. *)
Theorem first_row_juan_18_madrid {G : Type} (e : Os.env) (src : Rand.Source G)
    (g : G) (fs : gmap string string) :
  first_and_min src ->
  Os.raised (main e src g fs) = None ->
  (exists (rows : list row) (g' : G),
     Rand.run src data g =
       inr (header :: [VStr "Juan"; VInt 18; VStr "Madrid"] :: rows, g')) /\
  nth_error (output_lines e src g fs) 1 = Some "Juan,18,Madrid".
Proof.
  intros Hfm Hok.
  pose proof (first_and_min_lawful src Hfm) as Hlaw.
  destruct (lawful_output_lines e src g fs Hlaw Hok)
    as (rows & g' & Hrun & Hl & _ & _ & Hlines).
  destruct (data_run src g) as (rows' & g'' & Hrun' & Hd & _).
  rewrite Hrun in Hrun'. injection Hrun' as <- _.
  pose proof (drawn_rows_first_and_min _ _ Hd (draws_first_and_min src data g Hfm)) as Hall.
  destruct rows as [| r rows]; [discriminate Hl |].
  inversion Hall as [| ? ? Hr _]; subst.
  split; [now exists rows, g' |].
  rewrite Hlines. reflexivity.
Qed.

Lemma first_row_witness :
  first_and_min lowest /\
  Os.raised (main (willing Os.Posix) lowest tt ∅) = None /\
  nth_error (output_lines (willing Os.Posix) lowest tt ∅) 1 = Some "Juan,18,Madrid".
Proof.
  assert (H : Os.raised (main (willing Os.Posix) lowest tt ∅) = None)
    by (vm_compute; reflexivity).
  split; [exact lowest_first_and_min |]. split; [exact H |].
  exact (proj2 (first_row_juan_18_madrid (willing Os.Posix) lowest tt ∅
                  lowest_first_and_min H)).
Defined.

(** ** C5: the output is a function of the random values *)

(** C5: two runs whose random sources deliver the same sequence of random
    values, be the sources of different kinds, end in the same way on the
    same environment and files; and when both raise nothing, on whatever
    platforms and over whatever files, they leave the same text, character
    for character, in [personas.csv]. *)
Theorem same_draws_same_output {G1 G2 : Type} (s1 : Rand.Source G1) (s2 : Rand.Source G2)
    (g1 : G1) (g2 : G2) :
  map Rand.answer (Rand.draws s1 data g1) = map Rand.answer (Rand.draws s2 data g2) ->
  (forall (e : Os.env) (fs : gmap string string), main e s1 g1 fs = main e s2 g2 fs) /\
  (forall (e1 e2 : Os.env) (fs1 fs2 : gmap string string),
     Os.raised (main e1 s1 g1 fs1) = None ->
     Os.raised (main e2 s2 g2 fs2) = None ->
     exists text : string,
       output e1 s1 g1 fs1 = Some text /\ output e2 s2 g2 fs2 = Some text).
Proof.
  intros Hsame.
  destruct (data_run s1 g1) as (rows1 & g1' & Hrun1 & _).
  destruct (data_run s2 g2) as (rows2 & g2' & Hrun2 & _).
  pose proof (replay_run s1 data g1 g1' _ Hrun1) as R1.
  pose proof (replay_run s2 data g2 g2' _ Hrun2) as R2.
  rewrite Hsame, R2 in R1. injection R1 as R1. subst rows2.
  split.
  - intros e fs. unfold main. now rewrite Hrun1, Hrun2.
  - intros e1 e2 fs1 fs2 Hok1 Hok2.
    destruct (main_success e1 s1 g1 g1' fs1 _ Hrun1 Hok1) as (_ & _ & Hout1).
    destruct (main_success e2 s2 g2 g2' fs2 _ Hrun2 Hok2) as (_ & _ & Hout2).
    eexists. split; [exact Hout1 | exact Hout2].
Qed.

Lemma same_draws_witness :
  map Rand.answer (Rand.draws lcg data 7) =
  map Rand.answer
    (Rand.draws scripted data (map Rand.answer (Rand.draws lcg data 7))) /\
  main (willing Os.Posix) lcg 7 ∅ =
  main (willing Os.Posix) scripted (map Rand.answer (Rand.draws lcg data 7)) ∅.
Proof.
  assert (H : map Rand.answer (Rand.draws lcg data 7) =
              map Rand.answer
                (Rand.draws scripted data (map Rand.answer (Rand.draws lcg data 7))))
    by (vm_compute; reflexivity).
  split; [exact H |].
  exact (proj1 (same_draws_same_output lcg scripted 7 _ H) (willing Os.Posix) ∅).
Defined.

(** ** C6: the line terminator *)

(** C6 as stated does not hold: on a POSIX platform, where the native newline
    is a single line feed, the run with the source [lowest] leaves in
    [personas.csv] the rows ended by carriage return and line feed, which is
    not the text with the rows ended by the native newline. *)
Lemma native_newline_counterexample :
  exists rows : list row,
    Rand.run lowest data tt = inr (rows, tt) /\
    output (willing Os.Posix) lowest tt ∅ = Some (lines_text Csv.lineterminator rows) /\
    lines_text Csv.lineterminator rows <> lines_text (Os.linesep Os.Posix) rows.
Proof.
  exists (header :: List.repeat [VStr "Juan"; VInt 18; VStr "Madrid"] 50).
  split; [vm_compute; reflexivity |]. split; [vm_compute; reflexivity |].
  intros H. vm_compute in H. discriminate H.
Qed.

(** C6, amended: on every platform, on every run that raises nothing with a
    lawful source, every record of the dataset is written as one
    comma-delimited line ended by carriage return and line feed, the line
    terminator of [csv.writer] that a file opened with [newline=''] passes
    on untranslated; this is the native newline of Windows and not that of
    POSIX platforms. *)
Theorem rows_end_in_crlf_on_every_platform {G : Type} (e : Os.env) (src : Rand.Source G)
    (g : G) (fs : gmap string string) :
  Rand.lawful src ->
  Os.raised (main e src g fs) = None ->
  (exists (rows : list row) (g' : G),
     Rand.run src data g = inr (rows, g') /\
     output e src g fs = Some (lines_text Csv.lineterminator rows) /\
     Forall (fun r => one_line (comma_join r) = true) rows) /\
  Csv.lineterminator = Os.linesep Os.Windows /\
  Csv.lineterminator <> Os.linesep Os.Posix.
Proof.
  intros Hlaw Hok. split; [| split; [reflexivity | discriminate]].
  destruct (lawful_output_lines e src g fs Hlaw Hok)
    as (rows & g' & Hrun & _ & _ & Hout & _).
  destruct (lawful_rows src g Hlaw) as (rows' & g'' & Hrun' & _ & _ & _ & Hp).
  rewrite Hrun in Hrun'. injection Hrun' as <- _.
  exists (header :: rows), g'. repeat split; try assumption.
  eapply List.Forall_impl; [| exact Hp]. now intros r [_ Hl].
Qed.

Lemma rows_end_in_crlf_witness :
  Rand.lawful lcg /\
  Os.raised (main (willing Os.Posix) lcg 7 ∅) = None /\
  exists (rows : list row) (g' : Z),
    Rand.run lcg data 7 = inr (rows, g') /\
    output (willing Os.Posix) lcg 7 ∅ = Some (lines_text Csv.lineterminator rows).
Proof.
  assert (H : Os.raised (main (willing Os.Posix) lcg 7 ∅) = None)
    by (vm_compute; reflexivity).
  split; [exact lcg_lawful |]. split; [exact H |].
  destruct (proj1 (rows_end_in_crlf_on_every_platform (willing Os.Posix) lcg 7 ∅
                     lcg_lawful H)) as (rows & g' & Hrun & Hout & _).
  exists rows, g'. split; [exact Hrun | exact Hout].
Defined.

(** ** C7: failures of the file system *)

(** C7: the rows are always produced, and then the run ends in one of these
    ways. When [open] is refused, the [OSError] reaches the top, the exit
    status is 1, and the only call made is that one [open]: nothing is
    retried and no file is touched. With a lawful source the rows wait in
    the buffer of the file and reach the system in one piece when the file
    is closed: when the system takes only [k] characters of them and
    refuses the rest, the [OSError] reaches the top, the exit status is 1,
    and the script has made one [open], one write for each row and one
    [close], nothing twice, while the file keeps those [k] characters; when
    the system takes them all, nothing is raised and the exit status is 0.
    With any source, a system that refuses nothing gives exit status 0. A
    run that raises nothing has left the whole text in the file. The exit
    status is 0 exactly when nothing was raised, and whatever is raised is
    an [OSError], with exit status 1. *)
Theorem io_failure_is_fatal {G : Type} (e : Os.env) (src : Rand.Source G)
    (g : G) (fs : gmap string string) :
  exists (rows : list row) (g' : G),
    Rand.run src data g = inr (rows, g') /\
    let o := main e src g fs in
    let texts := map Csv.format_row rows in
    (forall errno : Z,
       Os.open_error e filename = Some errno ->
       Os.raised o = Some (OSError errno) /\ Os.exit_status o = 1 /\
       Os.final o =
         {| Os.files := fs; Os.buffered := EmptyString;
            Os.trace := [Os.CallOpen filename] |}) /\
    (Rand.lawful src ->
     Os.open_error e filename = None ->
     forall (k : nat) (errno : Z),
       Os.write_error e filename EmptyString (concat_texts texts) = Some (k, errno) ->
       Os.raised o = Some (OSError errno) /\ Os.exit_status o = 1 /\
       Os.final o =
         {| Os.files := <[filename := Os.take_chars k (concat_texts texts)]> fs;
            Os.buffered := EmptyString;
            Os.trace :=
              Os.CallOpen filename :: map (Os.CallWrite filename) texts ++
              [Os.CallClose filename] |}) /\
    (Rand.lawful src ->
     Os.open_error e filename = None ->
     Os.write_error e filename EmptyString (concat_texts texts) = None ->
     Os.raised o = None /\ Os.exit_status o = 0) /\
    (Os.open_error e filename = None ->
     (forall cur text : string, Os.write_error e filename cur text = None) ->
     Os.raised o = None /\ Os.exit_status o = 0) /\
    (Os.raised o = None ->
     Os.final o =
       {| Os.files := <[filename := concat_texts texts]> fs;
          Os.buffered := EmptyString;
          Os.trace :=
            Os.CallOpen filename :: map (Os.CallWrite filename) texts ++
            [Os.CallClose filename] |}) /\
    (Os.exit_status o = 0 <-> Os.raised o = None) /\
    (forall x : exn, Os.raised o = Some x ->
       Os.exit_status o = 1 /\ exists errno : Z, x = OSError errno).
Proof.
  destruct (main_outcome e src g fs) as (rows & g' & Hrun & _ & _ & Hmain).
  exists (header :: rows), g'. split; [exact Hrun |].
  cbv zeta. rewrite Hmain, write_csv_run. unfold Os.exit_status.
  pose proof (fun Hlaw => lawful_written e src g g' _ Hlaw Hrun) as Hsmall.
  destruct (Os.open_error e filename) as [errno0 |].
  - cbn [Os.outcome_of Os.raised Os.final].
    split; [| split; [| split; [| split; [| split; [| split]]]]];
      try (intros; discriminate).
    + intros errno [= <-]. repeat split.
    + split; discriminate.
    + intros x [= <-]. split; [reflexivity | now exists errno0].
  - split; [| split; [| split; [| split; [| split; [| split]]]]].
    + intros; discriminate.
    + intros Hlaw _ k errno Hwe. rewrite (Hsmall Hlaw), Hwe.
      cbn [Os.outcome_of raise_errno Os.raised Os.final].
      rewrite List.firstn_all. repeat split.
    + intros Hlaw _ Hwe. rewrite (Hsmall Hlaw), Hwe.
      cbn [Os.outcome_of raise_errno Os.raised]. split; reflexivity.
    + intros _ Hacc. rewrite (written_accepted e _ _ Hacc).
      cbn [Os.outcome_of raise_errno Os.raised]. split; reflexivity.
    + destruct (written e filename (map Csv.format_row (header :: rows)))
        as [[[errno |] n] text] eqn:Hw;
        cbn [Os.outcome_of raise_errno Os.raised Os.final]; [discriminate |].
      intros _. destruct (written_all e _ _ _ _ Hw) as [-> ->].
      now rewrite List.firstn_all.
    + destruct (written e filename (map Csv.format_row (header :: rows)))
        as [[[errno |] n] text];
        cbn [Os.outcome_of raise_errno Os.raised]; split; try discriminate; reflexivity.
    + destruct (written e filename (map Csv.format_row (header :: rows)))
        as [[[errno |] n] text];
        cbn [Os.outcome_of raise_errno Os.raised]; intros x; [| discriminate].
      intros [= <-]. split; [reflexivity | now exists errno].
Qed.

Lemma io_failure_witness :
  (Os.open_error (no_directory Os.Posix) filename = Some 2 /\
   Os.raised (main (no_directory Os.Posix) lcg 7 ∅) = Some (OSError 2) /\
   Os.exit_status (main (no_directory Os.Posix) lcg 7 ∅) = 1) /\
  (Rand.lawful lcg /\
   Os.open_error (small_disk Os.Posix 40) filename = None /\
   Os.raised (main (small_disk Os.Posix 40) lcg 7 ∅) = Some (OSError 28) /\
   Os.exit_status (main (small_disk Os.Posix 40) lcg 7 ∅) = 1).
Proof.
  split.
  - split; [reflexivity |].
    destruct (io_failure_is_fatal (no_directory Os.Posix) lcg 7 ∅)
      as (rows & g' & _ & Hopen & _).
    destruct (Hopen 2 eq_refl) as (Hr & Hs & _).
    split; [exact Hr | exact Hs].
  - split; [exact lcg_lawful |]. split; [reflexivity |].
    destruct (io_failure_is_fatal (small_disk Os.Posix 40) lcg 7 ∅)
      as (rows & g' & Hrun & _ & Hwrite & _).
    destruct (lawful_text_length lcg 7 lcg_lawful) as (rows' & g'' & Hrun' & _ & Hlen).
    rewrite Hrun in Hrun'. injection Hrun' as -> _.
    assert (Hwe : Os.write_error (small_disk Os.Posix 40) filename EmptyString
                    (concat_texts (map Csv.format_row (header :: rows'))) =
                  Some (40%nat, 28)).
    { cbn [small_disk Os.write_error String.length Nat.add Nat.sub].
      destruct (Nat.ltb_spec 40 (String.length
                  (concat_texts (map Csv.format_row (header :: rows')))))
        as [_ | Hle]; [reflexivity | lia]. }
    destruct (Hwrite lcg_lawful eq_refl 40%nat 28 Hwe) as (Hr & Hs & _).
    split; [exact Hr | exact Hs].
Defined.

(** ** C8: the only file written *)

(** C8: a run leaves every path other than [personas.csv] as it was,
    whether it fails or not; and a run that raises nothing on some files
    raises nothing on any files, absent or present the output file, and
    leaves in [personas.csv] one and the same text, which replaces whatever
    the file held. *)
Theorem only_personas_csv_is_written {G : Type} (e : Os.env) (src : Rand.Source G)
    (g : G) (fs : gmap string string) :
  filename = "personas.csv" /\
  (forall path : string,
     path <> filename ->
     Os.files (Os.final (main e src g fs)) !! path = fs !! path) /\
  (Os.raised (main e src g fs) = None ->
   exists text : string,
     forall fs' : gmap string string,
       Os.raised (main e src g fs') = None /\
       Os.files (Os.final (main e src g fs')) = <[filename := text]> fs').
Proof.
  split; [reflexivity |].
  destruct (main_outcome e src g fs) as (rows & g' & Hrun & _ & _ & Hmain).
  split.
  - intros path Hne. rewrite Hmain, write_csv_run.
    destruct (Os.open_error e filename) as [errno |]; [reflexivity |].
    destruct (written e filename (map Csv.format_row (header :: rows)))
      as [[[errno |] n] text]; cbn [Os.outcome_of raise_errno Os.final Os.files];
      now rewrite lookup_insert_ne.
  - intros Hok.
    destruct (main_success e src g g' fs _ Hrun Hok) as (Hopen & Hwritten & _).
    exists (concat_texts (map Csv.format_row (header :: rows))).
    intros fs'.
    destruct (main_outcome e src g fs') as (rows' & g'' & Hrun' & _ & _ & Hmain').
    rewrite Hrun in Hrun'. injection Hrun' as <- _.
    rewrite Hmain', write_csv_run, Hopen, Hwritten. split; reflexivity.
Qed.

Lemma only_personas_csv_witness :
  Os.raised (main (willing Os.Posix) lcg 7 ∅) = None /\
  exists text : string,
    Os.files (Os.final (main (willing Os.Posix) lcg 7
                          {[ "personas.csv" := "old"; "notes.txt" := "keep" ]})) =
    <[filename := text]> {[ "personas.csv" := "old"; "notes.txt" := "keep" ]}.
Proof.
  assert (H : Os.raised (main (willing Os.Posix) lcg 7 ∅) = None)
    by (vm_compute; reflexivity).
  split; [exact H |].
  destruct (proj2 (proj2 (only_personas_csv_is_written (willing Os.Posix) lcg 7 ∅)) H)
    as (text & Htext).
  exists text. exact (proj2 (Htext _)).
Defined.

(** ** C9: nothing is ever quoted *)

Lemma plain_no_special_char (s : string) :
  Csv.needs_quotes s = false -> no_special_char s.
Proof.
  unfold no_special_char.
  induction s as [| c s IH]; [repeat split |].
  cbn [Csv.needs_quotes Csv.mem_char]. intros H.
  apply orb_false_elim in H as [Hc Hs].
  apply special_false in Hc as (H1 & H2 & H3 & H4).
  destruct (IH Hs) as (I1 & I2 & I3 & I4).
  rewrite (Ascii.eqb_sym _ c), (Ascii.eqb_sym _ c), (Ascii.eqb_sym _ c), (Ascii.eqb_sym _ c).
  rewrite H1, H2, H3, H4, I1, I2, I3, I4. repeat split.
Qed.

(** C9: none of the 10 names, the 10 cities and the 3 header labels, and no
    decimal numeral of an integer from 18 to 65, holds a comma, a double
    quote, a carriage return or a line feed; hence with a lawful source
    every row of the dataset, the header included, has exactly three fields,
    each written as it is, without quotes, and the row is written as the
    plain comma-join of its fields before the line terminator. *)
Theorem fields_are_never_quoted :
  (forall s : string,
     In s (nombres ++ ciudades ++ map Csv.field_text header) -> no_special_char s) /\
  (forall a : Z, 18 <= a <= 65 -> no_special_char (Csv.str_of_int a)) /\
  (forall (G : Type) (src : Rand.Source G) (g : G),
     Rand.lawful src ->
     exists (rows : list row) (g' : G),
       Rand.run src data g = inr (rows, g') /\
       List.length rows = 51%nat /\
       Forall (fun r =>
                 List.length r = 3%nat /\
                 Forall (fun v => Csv.needs_quotes (Csv.field_text v) = false /\
                                  Csv.format_field v = Csv.field_text v) r /\
                 Csv.format_row r = comma_join r +:+ Csv.lineterminator) rows).
Proof.
  split; [| split].
  - intros s Hs. apply plain_no_special_char.
    apply in_app_or in Hs as [Hs | Hs]; [now apply nombres_plain |].
    apply in_app_or in Hs as [Hs | Hs]; [now apply ciudades_plain |].
    pose proof header_plain as Hh. rewrite List.Forall_forall in Hh.
    apply in_map_iff in Hs as (v & <- & Hv). now apply Hh.
  - intros a Ha. now apply plain_no_special_char, edad_plain.
  - intros G src g Hlaw.
    destruct (lawful_rows src g Hlaw) as (rows & g' & Hrun & _ & Hl & Hv & Hp).
    exists (header :: rows), g'. split; [exact Hrun |].
    split; [simpl; now rewrite Hl |].
    assert (Hfields : Forall (fun r => List.length r = 3%nat /\
              Forall (fun v => Csv.needs_quotes (Csv.field_text v) = false) r)
              (header :: rows)).
    { constructor; [split; [reflexivity | apply header_plain] |].
      eapply List.Forall_impl; [| exact Hv]. intros r Hr. split.
      - destruct Hr as (n & a & c & -> & _). reflexivity.
      - now apply valid_row_fields. }
    rewrite List.Forall_forall in Hfields, Hp. apply List.Forall_forall.
    intros r Hr. destruct (Hfields r Hr) as [H3 Hq]. destruct (Hp r Hr) as [Hf _].
    repeat split; try assumption.
    eapply List.Forall_impl; [| exact Hq].
    intros v Hvq. split; [exact Hvq | now apply format_field_plain].
Qed.

Lemma fields_are_never_quoted_witness :
  Rand.lawful lcg /\
  exists (rows : list row) (g' : Z),
    Rand.run lcg data 7 = inr (rows, g') /\
    Forall (fun r => Csv.format_row r = comma_join r +:+ Csv.lineterminator) rows.
Proof.
  split; [exact lcg_lawful |].
  destruct (proj2 (proj2 fields_are_never_quoted) Z lcg 7 lcg_lawful)
    as (rows & g' & Hrun & _ & Hall).
  exists rows, g'. split; [exact Hrun |].
  eapply List.Forall_impl; [| exact Hall]. intros r (_ & _ & Hf). exact Hf.
Defined.

(** ** C10: three draws a row, in a fixed order *)

(** C10: every pass of the loop makes exactly three draws, the name from
    [nombres], then the age from 18 to 65, then the city from [ciudades]; a
    run makes 150 draws, and its [k]-th data row, for [k] from 1 to 50, is
    the name of draw [3k-2], the age of draw [3k-1] and the city of draw
    [3k]. The order matters for reproducing a seeded output: the same
    source from the same seed gives other rows when the city is drawn
    before the name. *)
Theorem three_draws_per_row {G : Type} (src : Rand.Source G) (g : G) :
  (forall (acc : list row) (g0 : G),
     exists (n : string) (a : Z) (c : string),
       Rand.draws src (loop_body acc) g0 =
         [Rand.DChoice nombres n; Rand.DRandint 18 65 a; Rand.DChoice ciudades c]) /\
  (exists (rows : list row) (g' : G),
     Rand.run src data g = inr (header :: rows, g') /\
     List.length (Rand.draws src data g) = 150%nat /\
     forall k : nat,
       (1 <= k <= 50)%nat ->
       exists (n : string) (a : Z) (c : string),
         draw_no (3 * k - 2) (Rand.draws src data g) = Some (Rand.DChoice nombres n) /\
         draw_no (3 * k - 1) (Rand.draws src data g) = Some (Rand.DRandint 18 65 a) /\
         draw_no (3 * k) (Rand.draws src data g) = Some (Rand.DChoice ciudades c) /\
         nth_error (header :: rows) k = Some [VStr n; VInt a; VStr c]) /\
  (exists seed : Z,
     Rand.run lcg (for_range 50 loop_body_city_first [header]) seed <>
     Rand.run lcg data seed).
Proof.
  split; [| split].
  - intros acc g0.
    destruct (loop_body_run src acc g0) as (n & a & c & g' & _ & Hd).
    now exists n, a, c.
  - destruct (data_run src g) as (rows & g' & Hrun & Hd & Hl).
    exists rows, g'. split; [exact Hrun |].
    split; [rewrite (drawn_rows_length _ _ Hd), Hl; reflexivity |].
    intros k Hk. destruct k as [| k]; [lia |].
    assert (Hlt : (k < List.length rows)%nat) by lia.
    destruct (nth_error rows k) as [r |] eqn:Hr;
      [| apply nth_error_None in Hr; lia].
    destruct (drawn_rows_nth _ _ Hd k r Hr) as (n & a & c & -> & H1 & H2 & H3).
    exists n, a, c.
    replace (3 * S k - 2)%nat with (S (3 * k)) by lia.
    replace (3 * S k - 1)%nat with (S (3 * k + 1)) by lia.
    replace (3 * S k)%nat with (S (3 * k + 2)) by lia.
    cbn [draw_no nth_error]. repeat split; assumption.
  - exists 7. intros H. vm_compute in H. discriminate H.
Qed.

Lemma three_draws_per_row_witness :
  (1 <= 2 <= 50)%nat /\
  exists (n : string) (a : Z) (c : string),
    draw_no 4 (Rand.draws lcg data 7) = Some (Rand.DChoice nombres n) /\
    draw_no 5 (Rand.draws lcg data 7) = Some (Rand.DRandint 18 65 a) /\
    draw_no 6 (Rand.draws lcg data 7) = Some (Rand.DChoice ciudades c).
Proof.
  split; [lia |].
  destruct (proj1 (proj2 (three_draws_per_row lcg 7))) as (rows & g' & _ & _ & Hk).
  destruct (Hk 2%nat ltac:(lia)) as (n & a & c & H1 & H2 & H3 & _).
  exists n, a, c. repeat split; assumption.
Defined.

(** * Further properties of the script *)

(** ** Helper facts *)

Lemma ascii_only_app (s1 s2 : string) :
  ascii_only (s1 +:+ s2) = ascii_only s1 && ascii_only s2.
Proof.
  induction s1 as [| c s1 IH]; [reflexivity |].
  rewrite append_cons. cbn [ascii_only]. now rewrite IH, andb_assoc.
Qed.

Lemma pick_by_in (better : string -> string -> bool) (seq : list string) :
  forall best : string, In (pick_by better best seq) (best :: seq).
Proof.
  induction seq as [| s seq IH]; intros best; cbn [pick_by]; [now left |].
  destruct (IH (if better s best then s else best)) as [H | H].
  - destruct (better s best); rewrite <- H; [right; now left | now left].
  - right. now right.
Qed.

Lemma shortest_lawful : Rand.lawful shortest.
Proof.
  split.
  - intros [| s seq] g Hne; [congruence |]. apply pick_by_in.
  - intros a b g Hab. simpl. lia.
Qed.

Lemma longest_lawful : Rand.lawful longest.
Proof.
  split.
  - intros [| s seq] g Hne; [congruence |]. apply pick_by_in.
  - intros a b g Hab. simpl. lia.
Qed.

(** What a run does to the files: nothing, or a new text for the output
    file. *)
Lemma main_files {G : Type} (e : Os.env) (src : Rand.Source G) (g : G)
    (fs : gmap string string) :
  Os.files (Os.final (main e src g fs)) = fs \/
  exists text : string, Os.files (Os.final (main e src g fs)) = <[filename := text]> fs.
Proof.
  destruct (main_outcome e src g fs) as (rows & g' & _ & _ & _ & Hmain).
  rewrite Hmain, write_csv_run.
  destruct (Os.open_error e filename) as [errno |]; [now left |].
  destruct (written e filename (map Csv.format_row (header :: rows)))
    as [[[errno |] n] text]; right; eexists; reflexivity.
Qed.

(** ** Running the script again *)

(** When the script runs after an earlier run, of any source and seed and
    however that one ended, and its [open] is not refused, it ends as it
    would have without the earlier run and leaves the same files: the text
    of the earlier run is replaced, never appended to. *)
Theorem later_run_replaces_earlier {G1 G2 : Type} (e1 e2 : Os.env)
    (s1 : Rand.Source G1) (s2 : Rand.Source G2) (g1 : G1) (g2 : G2)
    (fs : gmap string string) :
  Os.open_error e2 filename = None ->
  Os.files (Os.final (main e2 s2 g2 (Os.files (Os.final (main e1 s1 g1 fs))))) =
    Os.files (Os.final (main e2 s2 g2 fs)) /\
  Os.raised (main e2 s2 g2 (Os.files (Os.final (main e1 s1 g1 fs)))) =
    Os.raised (main e2 s2 g2 fs).
Proof.
  intros Hopen.
  destruct (main_outcome e2 s2 g2 fs) as (rows & g' & Hrun & _ & _ & Hmain).
  destruct (main_outcome e2 s2 g2 (Os.files (Os.final (main e1 s1 g1 fs))))
    as (rows' & g'' & Hrun' & _ & _ & Hmain').
  rewrite Hrun in Hrun'. injection Hrun' as <- _.
  rewrite Hmain', Hmain, !write_csv_run, Hopen.
  destruct (main_files e1 s1 g1 fs) as [-> | [text ->]].
  - split; reflexivity.
  - destruct (written e2 filename (map Csv.format_row (header :: rows)))
      as [[[errno |] n] text0];
      cbn [Os.outcome_of raise_errno Os.final Os.files Os.raised];
      (split; [apply insert_insert_eq | reflexivity]).
Qed.

Lemma later_run_replaces_earlier_witness :
  Os.open_error (small_disk Os.Posix 100) filename = None /\
  Os.files (Os.final (main (small_disk Os.Posix 100) lcg 8
                        (Os.files (Os.final (main (willing Os.Windows) lowest tt ∅))))) =
  Os.files (Os.final (main (small_disk Os.Posix 100) lcg 8 ∅)).
Proof.
  split; [reflexivity |].
  exact (proj1 (later_run_replaces_earlier (willing Os.Windows) (small_disk Os.Posix 100)
                  lowest lcg tt 8 ∅ eq_refl)).
Defined.

(** ** The dataset read back from the file *)

Lemma parse_row_comma_join (r : row) : valid_row r -> parse_row (comma_join r) = Some r.
Proof.
  intros Hr.
  destruct (valid_row_read_back r Hr) as (n & a & c & -> & _ & _ & _ & Hs & Hi).
  unfold parse_row. now rewrite Hs, Hi.
Qed.

(** The file loses nothing of the dataset: after a run that raises nothing
    with a lawful source, the header line splits into the three labels, and
    the lines after it, split at their commas with the middle field read as
    an integer, are exactly the 50 data rows of [data], in their order. *)
Theorem dataset_read_back {G : Type} (e : Os.env) (src : Rand.Source G)
    (g : G) (fs : gmap string string) :
  Rand.lawful src ->
  Os.raised (main e src g fs) = None ->
  exists (rows : list row) (g' : G) (text : string),
    Rand.run src data g = inr (header :: rows, g') /\
    output e src g fs = Some text /\
    option_map split_commas (List.hd_error (splitlines text)) =
      Some (map Csv.field_text header) /\
    read_rows text = map Some rows.
Proof.
  intros Hlaw Hok.
  destruct (lawful_output_lines e src g fs Hlaw Hok)
    as (rows & g' & Hrun & _ & Hv & Hout & Hlines).
  exists rows, g', (lines_text Csv.lineterminator (header :: rows)).
  unfold output_lines in Hlines. rewrite Hout in Hlines.
  split; [exact Hrun |]. split; [exact Hout |].
  unfold read_rows. rewrite Hlines. cbn [map List.hd_error List.tl option_map].
  split; [reflexivity |].
  rewrite map_map. clear -Hv.
  induction Hv as [| r rows Hr _ IH]; [reflexivity |].
  cbn [map]. now rewrite parse_row_comma_join, IH.
Qed.

Lemma dataset_read_back_witness :
  Rand.lawful lcg /\
  Os.raised (main (willing Os.Windows) lcg 7 ∅) = None /\
  exists (rows : list row) (g' : Z) (text : string),
    Rand.run lcg data 7 = inr (header :: rows, g') /\
    output (willing Os.Windows) lcg 7 ∅ = Some text /\
    read_rows text = map Some rows.
Proof.
  assert (H : Os.raised (main (willing Os.Windows) lcg 7 ∅) = None)
    by (vm_compute; reflexivity).
  split; [exact lcg_lawful |]. split; [exact H |].
  destruct (dataset_read_back (willing Os.Windows) lcg 7 ∅ lcg_lawful H)
    as (rows & g' & text & Hrun & Hout & _ & Hread).
  exists rows, g', text. repeat split; assumption.
Defined.

(** ** The characters and the size of the output *)

Lemma valid_row_ascii (r : row) : valid_row r -> ascii_only (comma_join r) = true.
Proof.
  intros (n & a & c & -> & Hn & Ha & Hc).
  assert (Hns : forallb ascii_only nombres = true) by reflexivity.
  assert (Hcs : forallb ascii_only ciudades = true) by reflexivity.
  assert (Has : forallb (fun k => ascii_only (Csv.str_of_int (Z.of_nat k))) (seq 18 48)
                = true) by (vm_compute; reflexivity).
  rewrite forallb_forall in Hns, Hcs, Has.
  specialize (Has (Z.to_nat a)). rewrite Z2Nat.id in Has by lia.
  unfold comma_join. cbn [map String.concat Csv.field_text].
  rewrite !ascii_only_app, (Hns n Hn), (Hcs c Hc), Has by (apply in_seq; lia).
  reflexivity.
Qed.

Lemma lines_text_ascii (rows : list row) :
  Forall (fun r => ascii_only (comma_join r) = true) rows ->
  ascii_only (lines_text Csv.lineterminator rows) = true.
Proof.
  unfold lines_text.
  induction 1 as [| r rows Hr _ IH]; [reflexivity |].
  cbn [map concat_texts]. rewrite !ascii_only_app, Hr, IH. reflexivity.
Qed.

(** Every character the script writes is in the ASCII range: after a run
    that raises nothing with a lawful source, the file holds no character of
    code 128 or above, so its bytes are the same in every encoding that
    extends ASCII, whichever the platform picks for [open]. *)
Theorem output_is_ascii {G : Type} (e : Os.env) (src : Rand.Source G)
    (g : G) (fs : gmap string string) :
  Rand.lawful src ->
  Os.raised (main e src g fs) = None ->
  exists text : string, output e src g fs = Some text /\ ascii_only text = true.
Proof.
  intros Hlaw Hok.
  destruct (lawful_output_lines e src g fs Hlaw Hok)
    as (rows & g' & _ & _ & Hv & Hout & _).
  eexists. split; [exact Hout |].
  apply lines_text_ascii. constructor; [reflexivity |].
  eapply List.Forall_impl; [apply valid_row_ascii | exact Hv].
Qed.

Lemma output_is_ascii_witness :
  Rand.lawful lcg /\
  Os.raised (main (willing Os.Posix) lcg 7 ∅) = None /\
  exists text : string,
    output (willing Os.Posix) lcg 7 ∅ = Some text /\ ascii_only text = true.
Proof.
  assert (H : Os.raised (main (willing Os.Posix) lcg 7 ∅) = None)
    by (vm_compute; reflexivity).
  split; [exact lcg_lawful |]. split; [exact H |].
  exact (output_is_ascii (willing Os.Posix) lcg 7 ∅ lcg_lawful H).
Defined.

(** The size of the output: after a run that raises nothing with a lawful
    source every data line has from 13 to 19 characters before its
    terminator, and the file has from 770 to 1070 characters; both ends are
    attained, by the lawful sources that always pick the shortest or the
    longest element. *)
Theorem output_size_bounds :
  (forall (G : Type) (e : Os.env) (src : Rand.Source G) (g : G) (fs : gmap string string),
     Rand.lawful src ->
     Os.raised (main e src g fs) = None ->
     exists text : string,
       output e src g fs = Some text /\
       (770 <= String.length text <= 1070)%nat /\
       Forall (fun line => (13 <= String.length line <= 19)%nat)
         (List.tl (splitlines text))) /\
  (Rand.lawful shortest /\
   option_map String.length (output (willing Os.Posix) shortest tt ∅) = Some 770%nat) /\
  (Rand.lawful longest /\
   option_map String.length (output (willing Os.Posix) longest tt ∅) = Some 1070%nat).
Proof.
  split; [| split; (split; [| vm_compute; reflexivity])];
    [| apply shortest_lawful | apply longest_lawful].
  intros G e src g fs Hlaw Hok.
  destruct (lawful_output_lines e src g fs Hlaw Hok)
    as (rows & g' & _ & Hl & Hv & Hout & Hlines).
  assert (Hlen : Forall (fun r => (13 <= String.length (comma_join r) <= 19)%nat) rows)
    by (eapply List.Forall_impl; [apply valid_row_length | exact Hv]).
  eexists. split; [exact Hout |]. split.
  - unfold lines_text. cbn [map concat_texts]. rewrite string_length_app.
    pose proof (lines_text_length rows Hlen) as Hb. unfold lines_text in Hb.
    rewrite Hl in Hb.
    change (String.length (comma_join header +:+ Csv.lineterminator)) with 20%nat.
    lia.
  - unfold output_lines in Hlines. rewrite Hout in Hlines. rewrite Hlines.
    cbn [map List.tl]. clear -Hlen.
    induction Hlen as [| r rows Hr _ IH]; constructor; assumption.
Qed.

Lemma output_size_bounds_witness :
  Rand.lawful lcg /\
  Os.raised (main (willing Os.Posix) lcg 7 ∅) = None /\
  exists text : string,
    output (willing Os.Posix) lcg 7 ∅ = Some text /\
    (770 <= String.length text <= 1070)%nat.
Proof.
  assert (H : Os.raised (main (willing Os.Posix) lcg 7 ∅) = None)
    by (vm_compute; reflexivity).
  split; [exact lcg_lawful |]. split; [exact H |].
  destruct (proj1 output_size_bounds Z (willing Os.Posix) lcg 7 ∅ lcg_lawful H)
    as (text & Hout & Hlen & _).
  exists text. split; [exact Hout | exact Hlen].
Defined.
